(** * FNOL agent: field extraction and claim routing

    A shallow embedding of [fnol_agent.py]: the extraction table
    [FIELD_PATTERNS], [extract_fields], [parse_amount],
    [find_missing_fields], [apply_routing_rules] and the pipeline of
    [process_pdf], together with the parts of the Python runtime they call
    ([re.search], [re.sub], [str.strip], [str.lower], [str.upper], [float],
    the formatting of a float inside an f-string).

    Texts are Rocq strings.  The characters with a code below 128 are the
    ASCII characters, on which the character classes and the case mappings
    are those of CPython.  Code 223 is the sharp s of Latin-1, the one
    character whose upper-case form ("SS") occurs inside the title phrase of
    the form; every other code from 128 up stands for a caseless symbol that
    belongs to no character class. *)

From Stdlib Require Import ZArith Ascii String List Lia Bool DecimalString.
From Stdlib Require Import Floats.SpecFloat.
From stdpp Require Import gmap strings list fin_maps.

#[local] Set Warnings "-clear-no-such-hyp".

(** ** Exceptions *)

Inductive exn : Type :=
| IndexError      (* match.group(n) for a group the pattern does not have *)
| ValueError.     (* float(s) for a string that is no number *)

Inductive result (A : Type) : Type :=
| Ok (a : A)
| Raise (e : exn).
Arguments Ok {A} a.
Arguments Raise {A} e.

(** Sequencing: an exception of the first computation is the exception of
    the whole.  With these instances [x ← r; k] is stdpp's notation. *)
#[global] Instance result_ret : MRet result := fun A a => Ok a.
#[global] Instance result_bind : MBind result := fun A B k r =>
  match r with
  | Ok a => k a
  | Raise e => Raise e
  end.

(** ** Characters *)

Module Char.

Definition code (c : ascii) : N := N_of_ascii c.

Definition between (lo hi c : ascii) : bool :=
  (code lo <=? code c)%N && (code c <=? code hi)%N.

Definition is_upper (c : ascii) : bool := between "A"%char "Z"%char c.
Definition is_lower (c : ascii) : bool := between "a"%char "z"%char c.
Definition is_digit (c : ascii) : bool := between "0"%char "9"%char c.

(** The sharp s, U+00DF. *)
Definition sharp_s : ascii := ascii_of_N 223.

(** [Py_UNICODE_ISSPACE] below 128: tab to carriage return, the four
    separators 0x1C to 0x1F, and the blank. *)
Definition is_space (c : ascii) : bool :=
  ((9 <=? code c)%N && (code c <=? 13)%N)
  || ((28 <=? code c)%N && (code c <=? 32)%N).

(** [\w]: alphanumeric or underscore. *)
Definition is_word (c : ascii) : bool :=
  is_upper c || is_lower c || is_digit c
  || Ascii.eqb c "_"%char || Ascii.eqb c sharp_s.

(** Simple (one to one) case mappings, as [re.IGNORECASE] and [str.lower]
    use them. *)
Definition lower (c : ascii) : ascii :=
  if is_upper c then ascii_of_N (code c + 32) else c.

Definition upper (c : ascii) : ascii :=
  if is_lower c then ascii_of_N (code c - 32) else c.

Definition newline : ascii := ascii_of_N 10.

End Char.

(** ** Strings: the [str] methods the program calls *)

Module Str.

Fixpoint filter (p : ascii -> bool) (s : string) : string :=
  match s with
  | EmptyString => EmptyString
  | String c s' => if p c then String c (filter p s') else filter p s'
  end.

Fixpoint forallb (p : ascii -> bool) (s : string) : bool :=
  match s with
  | EmptyString => true
  | String c s' => p c && forallb p s'
  end.

Fixpoint map (f : ascii -> ascii) (s : string) : string :=
  match s with
  | EmptyString => EmptyString
  | String c s' => String (f c) (map f s')
  end.

(** [s.lower()] *)
Definition lower (s : string) : string := map Char.lower s.

(** [s.upper()]: the sharp s becomes two letters. *)
Fixpoint upper (s : string) : string :=
  match s with
  | EmptyString => EmptyString
  | String c s' =>
      if Ascii.eqb c Char.sharp_s then "SS" +:+ upper s'
      else String (Char.upper c) (upper s')
  end.

Fixpoint lstrip (s : string) : string :=
  match s with
  | EmptyString => EmptyString
  | String c s' => if Char.is_space c then lstrip s' else s
  end.

Fixpoint rstrip (s : string) : string :=
  match s with
  | EmptyString => EmptyString
  | String c s' =>
      match rstrip s' with
      | EmptyString => if Char.is_space c then EmptyString else String c EmptyString
      | r => String c r
      end
  end.

(** [s.strip()] *)
Definition strip (s : string) : string := lstrip (rstrip s).

Fixpoint startswith (p s : string) : bool :=
  match p, s with
  | EmptyString, _ => true
  | String a p', String b s' => Ascii.eqb a b && startswith p' s'
  | String _ _, EmptyString => false
  end.

(** [sub in s] *)
Fixpoint contains (sub s : string) : bool :=
  startswith sub s
  || match s with
     | EmptyString => false
     | String _ s' => contains sub s'
     end.

(** [sep.join(l)] *)
Fixpoint join (sep : string) (l : list string) : string :=
  match l with
  | [] => EmptyString
  | [x] => x
  | x :: l' => x +:+ sep +:+ join sep l'
  end.

(** The first [n] characters of [s]. *)
Fixpoint take (n : nat) (s : string) : string :=
  match n, s with
  | S n', String c s' => String c (take n' s')
  | _, _ => EmptyString
  end.

(** Truth value of a string: non-empty. *)
Definition truthy (s : string) : bool :=
  match s with
  | EmptyString => false
  | String _ _ => true
  end.

End Str.

(** ** Regular expressions: the fragment of [re] the program uses

    The patterns of the program are sequences of single-character atoms
    (a literal, [.], a character set), each with an optional quantifier,
    and capture groups around such sequences.  The matcher is the
    backtracking matcher of [re]: a greedy quantifier tries the longest
    repetition first, a lazy one the shortest, and [search] returns the
    match at the leftmost position that has one. *)

Module Re.

Record flags : Type := { IGNORECASE : bool; DOTALL : bool }.

Definition no_flags : flags := {| IGNORECASE := false; DOTALL := false |}.

Inductive set_item : Type :=
| Chr (c : ascii)              (* a character *)
| Range (lo hi : ascii)        (* lo-hi *)
| Digit                        (* \d *)
| Space                        (* \s *)
| Word.                        (* \w *)

Inductive atom : Type :=
| Lit (c : ascii)                          (* a literal character *)
| Any                                      (* . *)
| OneOf (items : list set_item)            (* [...] *)
| NoneOf (items : list set_item).          (* [^...] *)

Inductive quant : Type :=
| Once                         (* no quantifier *)
| Opt                          (* ? *)
| Star                         (* * *)
| Plus                         (* + *)
| LazyStar.                    (* *? *)

Inductive node : Type :=
| Atom (a : atom) (q : quant)
| GroupOpen                    (* ( *)
| GroupClose.                  (* ) *)

Definition regex : Type := list node.

Definition item_has (i : set_item) (c : ascii) : bool :=
  match i with
  | Chr x => Ascii.eqb c x
  | Range lo hi => Char.between lo hi c
  | Digit => Char.is_digit c
  | Space => Char.is_space c
  | Word => Char.is_word c
  end.

(** Under IGNORECASE a set has a character when it has one of its case
    variants. *)
Definition set_has (fl : flags) (items : list set_item) (c : ascii) : bool :=
  existsb (fun i =>
    item_has i c
    || (IGNORECASE fl && (item_has i (Char.lower c) || item_has i (Char.upper c))))
    items.

Definition atom_matches (fl : flags) (a : atom) (c : ascii) : bool :=
  match a with
  | Lit x =>
      if IGNORECASE fl then Ascii.eqb (Char.lower c) (Char.lower x)
      else Ascii.eqb c x
  | Any => DOTALL fl || negb (Ascii.eqb c Char.newline)
  | OneOf items => set_has fl items c
  | NoneOf items => negb (set_has fl items c)
  end.

(** The state of a match attempt: [opened] is the text from the last
    opening parenthesis on, [caps] the groups closed so far; the result is
    the text left after the match and the captured groups. *)
Definition outcome : Type := option (string * list string).

Definition orelse (a b : outcome) : outcome :=
  match a with
  | Some r => Some r
  | None => b
  end.

Section Quantifiers.
(** [p] says which characters the quantified atom matches, [next]
    matches the rest of the pattern. *)
Variable p : ascii -> bool.
Variable next : string -> outcome.

Definition once (s : string) : outcome :=
  match s with
  | String c s' => if p c then next s' else None
  | EmptyString => None
  end.

(** [?]: one occurrence first, none second. *)
Definition opt (s : string) : outcome :=
  match s with
  | String c s' => if p c then orelse (next s') (next s) else next s
  | EmptyString => next s
  end.

(** [*]: as many occurrences as possible first, giving back one at a
    time. *)
Fixpoint star (s : string) : outcome :=
  match s with
  | String c s' => if p c then orelse (star s') (next s) else next s
  | EmptyString => next s
  end.

(** [+] *)
Definition plus (s : string) : outcome :=
  match s with
  | String c s' => if p c then star s' else None
  | EmptyString => None
  end.

(** [*?]: as few occurrences as possible first, taking one more at a
    time. *)
Fixpoint lazy_star (s : string) : outcome :=
  orelse (next s)
    match s with
    | String c s' => if p c then lazy_star s' else None
    | EmptyString => None
    end.
End Quantifiers.

Fixpoint match_here (fl : flags) (r : regex) (opened : string)
    (caps : list string) {struct r} : string -> outcome :=
  match r with
  | [] => fun s => Some (s, caps)
  | GroupOpen :: r' => fun s => match_here fl r' s caps s
  | GroupClose :: r' => fun s =>
      let captured := Str.take (String.length opened - String.length s) opened in
      match_here fl r' opened (caps ++ [captured]) s
  | Atom a q :: r' =>
      let next := match_here fl r' opened caps in
      match q with
      | Once => once (atom_matches fl a) next
      | Opt => opt (atom_matches fl a) next
      | Star => star (atom_matches fl a) next
      | Plus => plus (atom_matches fl a) next
      | LazyStar => lazy_star (atom_matches fl a) next
      end
  end.

(** A match object: the matched text and the captured groups. *)
Record match_object : Type := { whole : string; groups : list string }.

(** [re.search(pattern, text, flags)]: the first position, from the left,
    at which the pattern matches. *)
Fixpoint search (fl : flags) (r : regex) (text : string) : option match_object :=
  match match_here fl r text [] text with
  | Some (rest, caps) =>
      Some {| whole := Str.take (String.length text - String.length rest) text;
              groups := caps |}
  | None =>
      match text with
      | EmptyString => None
      | String _ text' => search fl r text'
      end
  end.

(** [m.group(n)]: the whole match for 0, the n-th group otherwise, and
    IndexError ("no such group") when the pattern has fewer groups. *)
Definition group (m : match_object) (n : nat) : result string :=
  match n with
  | 0 => Ok (whole m)
  | S k =>
      match nth_error (groups m) k with
      | Some g => Ok g
      | None => Raise IndexError
      end
  end.

(** [re.sub(pattern, "", s)] for a pattern that is one character set:
    every character of the set is removed. *)
Definition sub_delete (a : atom) (s : string) : string :=
  Str.filter (fun c => negb (atom_matches no_flags a c)) s.

(** A literal text as a pattern. *)
Fixpoint lit (s : string) : regex :=
  match s with
  | EmptyString => []
  | String c s' => Atom (Lit c) Once :: lit s'
  end.

(** Number of capture groups of a pattern. *)
Fixpoint group_count (r : regex) : nat :=
  match r with
  | [] => 0
  | GroupClose :: r' => S (group_count r')
  | _ :: r' => group_count r'
  end.

End Re.

(** ** Floats: binary64 values, [float(s)] and the text of a float *)

Module Float.

Definition prec : Z := 53.
Definition emax : Z := 1024.

(** A Python float, as the specification of IEEE 754 of the Standard
    Library has it. *)
Definition float : Type := spec_float.

(** The float of an integer, rounded to nearest even. *)
Definition of_Z (n : Z) : float := binary_normalize prec emax n 0 false.

(** The float nearest to [n / 10^k], ties to even: what CPython's
    correctly rounded string conversion returns for the decimal with
    digits [n] and [k] digits after the point. *)
Definition of_decimal (n : Z) (k : Z) : float :=
  match n with
  | Zpos p =>
      SFdiv prec emax (S754_finite false p 0)
                      (S754_finite false (Z.to_pos (10 ^ k)) 0)
  | _ => S754_zero false
  end.

(** [x < y] *)
Definition ltb (x y : float) : bool := SFltb x y.

Definition digit_value (c : ascii) : Z := Z.of_N (Char.code c) - 48.

(** The number a string of decimal digits writes. *)
Fixpoint digits_value (acc : Z) (s : string) : Z :=
  match s with
  | EmptyString => acc
  | String c s' => digits_value (10 * acc + digit_value c) s'
  end.

(** The text before the first point, and the text after it when there is
    a point. *)
Fixpoint split_point (s : string) : string * option string :=
  match s with
  | EmptyString => (EmptyString, None)
  | String c s' =>
      if Ascii.eqb c "."%char then (EmptyString, Some s')
      else let '(i, f) := split_point s' in (String c i, f)
  end.

(** [float(s)] on the strings the program passes to it, which hold
    digits and points only: digits with at most one point among them and
    at least one digit make a number, anything else is a ValueError.  (On
    other strings [float] also reads signs, exponents and blanks; the
    program never passes one.) *)
Definition of_string (s : string) : result float :=
  let '(i, f) := split_point s in
  let f := default EmptyString f in
  if Str.forallb Char.is_digit i && Str.forallb Char.is_digit f
     && negb (String.eqb (i +:+ f) EmptyString)
  then Ok (of_decimal (digits_value 0 (i +:+ f)) (Z.of_nat (String.length f)))
  else Raise ValueError.

(** *** The text of a float: [repr], which an f-string uses *)

Fixpoint rstrip_zeros (s : string) : string :=
  match s with
  | EmptyString => EmptyString
  | String c s' =>
      match rstrip_zeros s' with
      | EmptyString => if Ascii.eqb c "0"%char then EmptyString else String c EmptyString
      | r => String c r
      end
  end.

Fixpoint zeros (n : nat) : string :=
  match n with
  | 0 => EmptyString
  | S n' => String "0"%char (zeros n')
  end.

Fixpoint drop (n : nat) (s : string) : string :=
  match n, s with
  | S n', String _ s' => drop n' s'
  | _, _ => s
  end.

(** Decimal digits of a natural number. *)
Definition digits_of (n : Z) : string :=
  NilEmpty.string_of_uint (N.to_uint (Z.to_N n)).

(** floor ((num / den) / 10^p) *)
Definition floor_scaled (num den p : Z) : Z :=
  if (0 <=? p)%Z then (num / (den * 10 ^ p))%Z
  else ((num * 10 ^ (- p)) / den)%Z.

(** The least k from [k] on with den <= num * 10^k. *)
Fixpoint first_scale (fuel : nat) (num den k : Z) : Z :=
  match fuel with
  | 0 => k
  | S fuel' =>
      if (den <=? num * 10 ^ k)%Z then k
      else first_scale fuel' num den (k + 1)%Z
  end.

(** The position of the decimal point of num / den > 0: the integer
    [d] with 10^(d-1) <= num / den < 10^d. *)
Definition decimal_point (num den : Z) : Z :=
  if (den <=? num)%Z then Z.of_nat (String.length (digits_of (num / den)))
  else (1 - first_scale (S (Z.to_nat (Z.log2 den))) num den 0)%Z.

(** Does the decimal [d * 10^p] read back as the float [m * 2^e]? *)
Definition reads_back (m : positive) (e : Z) (d p : Z) : bool :=
  let f := if (0 <=? p)%Z then of_decimal (d * 10 ^ p) 0 else of_decimal d (- p) in
  match f with
  | S754_finite false m' e' => Pos.eqb m m' && Z.eqb e e'
  | _ => false
  end.

(** The shortest decimal that reads back as the float, the nearest to it
    when two of one length do: digits [d] and exponent [p].  Seventeen
    digits always suffice for a binary64 value. *)
Fixpoint shortest (todo : nat) (n : Z) (m : positive) (e : Z)
    (num den dpt : Z) : Z * Z :=
  let p := (dpt - n)%Z in
  let lo := floor_scaled num den p in
  let hi := (lo + 1)%Z in
  let side :=
    if (0 <=? p)%Z then (2 * num ?= (lo + hi) * 10 ^ p * den)%Z
    else (2 * num * 10 ^ (- p) ?= (lo + hi) * den)%Z in
  let nearest :=
    match side with
    | Lt => lo
    | Gt => hi
    | Eq => if Z.even lo then lo else hi
    end in
  match todo with
  | 0 => (nearest, p)
  | S todo' =>
      match reads_back m e lo p, reads_back m e hi p with
      | true, true => (nearest, p)
      | true, false => (lo, p)
      | false, true => (hi, p)
      | false, false => shortest todo' (n + 1)%Z m e num den dpt
      end
  end.

(** Fixed notation when the point lies within (-4, 16], scientific
    notation otherwise; fixed notation always shows a fractional part. *)
Definition format (ds : string) (dpt : Z) : string :=
  let n := Z.of_nat (String.length ds) in
  if ((-4 <? dpt) && (dpt <=? 16))%Z then
    if (dpt <=? 0)%Z then "0." +:+ zeros (Z.to_nat (- dpt)) +:+ ds
    else if (dpt <? n)%Z then
      Str.take (Z.to_nat dpt) ds +:+ "." +:+ drop (Z.to_nat dpt) ds
    else ds +:+ zeros (Z.to_nat (dpt - n)) +:+ ".0"
  else
    let x := (dpt - 1)%Z in
    Str.take 1 ds
    +:+ (if (1 <? n)%Z then "." +:+ drop 1 ds else EmptyString)
    +:+ "e" +:+ (if (x <? 0)%Z then "-" else "+")
    +:+ (if (Z.abs x <? 10)%Z then "0" else EmptyString)
    +:+ digits_of (Z.abs x).

Definition repr_finite (m : positive) (e : Z) : string :=
  let num := if (0 <=? e)%Z then (Zpos m * 2 ^ e)%Z else Zpos m in
  let den := if (0 <=? e)%Z then 1%Z else (2 ^ (- e))%Z in
  let dpt := decimal_point num den in
  let '(d, p) := shortest 17 1 m e num den dpt in
  let ds := digits_of d in
  format (rstrip_zeros ds) (p + Z.of_nat (String.length ds)).

(** [repr(x)], also the text of [x] inside an f-string. *)
Definition repr (x : float) : string :=
  match x with
  | S754_zero s => if s then "-0.0" else "0.0"
  | S754_infinity s => if s then "-inf" else "inf"
  | S754_nan => "nan"
  | S754_finite s m e => (if s then "-" else EmptyString) +:+ repr_finite m e
  end.

End Float.

(** ** The program *)

(** A Field Map: [Dict[str, Optional[str]]]. *)
Abbreviation field_map := (gmap string (option string)).

(** [fields.get(name)]: the stored value, [None] also for a key the
    dictionary does not have. *)
Definition get (fields : field_map) (name : string) : option string :=
  default None (fields !! name).

(** Truth value of an [Optional[str]]: [None] and the empty string are
    false, every other string is true. *)
Definition truthy (v : option string) : bool :=
  match v with
  | None => false
  | Some s => Str.truthy s
  end.

(** [v or ""] *)
Definition or_empty (v : option string) : string :=
  if truthy v then default EmptyString v else EmptyString.

Definition MANDATORY_FIELDS : list string :=
  [ "Policy Number";
    "Policyholder Name";
    "Date of Loss";
    "Time of Loss";
    "Location";
    "Description";
    "Claim Type";
    "Estimated Damage";
    "Asset Type";
    "Initial Estimate";
    "Attachments" ].

Section Patterns.
Import Re.

Let nl : ascii := Char.newline.
Let sp : ascii := " "%char.

(** [[A-Z0-9 ,.'\-]] *)
Let name_chars : list set_item :=
  [Range "A" "Z"; Range "0" "9"; Chr sp; Chr ","; Chr "."; Chr "'"; Chr "-"]%char.

(** [[\d\/\-]] *)
Let date_chars : list set_item := [Digit; Chr "/"; Chr "-"]%char.

(** The extraction table, in the order of the dictionary literal. *)
Definition FIELD_PATTERNS : list (string * regex) :=
  [ (* POLICY NUMBER\s*([\w\-\/]+) *)
    ("Policy Number",
      lit "POLICY NUMBER" ++ [Atom (OneOf [Space]) Star]
      ++ [GroupOpen; Atom (OneOf [Word; Chr "-"; Chr "/"]%char) Plus; GroupClose]);
    (* NAME OF INSURED.*?\n([A-Z0-9 ,.'\-]+) *)
    ("Policyholder Name",
      lit "NAME OF INSURED" ++ [Atom Any LazyStar; Atom (Lit nl) Once]
      ++ [GroupOpen; Atom (OneOf name_chars) Plus; GroupClose]);
    (* DATE OF LOSS AND TIME\s*([\d\/\-]+) *)
    ("Date of Loss",
      lit "DATE OF LOSS AND TIME" ++ [Atom (OneOf [Space]) Star]
      ++ [GroupOpen; Atom (OneOf date_chars) Plus; GroupClose]);
    (* DATE OF LOSS AND TIME\s*[\d\/\-]+\s*([APM0-9: ]+) *)
    ("Time of Loss",
      lit "DATE OF LOSS AND TIME" ++ [Atom (OneOf [Space]) Star]
      ++ [Atom (OneOf date_chars) Plus; Atom (OneOf [Space]) Star]
      ++ [GroupOpen;
          Atom (OneOf [Chr "A"; Chr "P"; Chr "M"; Range "0" "9"; Chr ":"; Chr sp]%char) Plus;
          GroupClose]);
    (* LOCATION OF LOSS\s*\n(.+) *)
    ("Location",
      lit "LOCATION OF LOSS" ++ [Atom (OneOf [Space]) Star; Atom (Lit nl) Once]
      ++ [GroupOpen; Atom Any Plus; GroupClose]);
    (* DESCRIPTION OF ACCIDENT.*?\n(.+) *)
    ("Description",
      lit "DESCRIPTION OF ACCIDENT" ++ [Atom Any LazyStar; Atom (Lit nl) Once]
      ++ [GroupOpen; Atom Any Plus; GroupClose]);
    (* LINE OF BUSINESS\s*([A-Z0-9 ,.'\-]+) *)
    ("Claim Type",
      lit "LINE OF BUSINESS" ++ [Atom (OneOf [Space]) Star]
      ++ [GroupOpen; Atom (OneOf name_chars) Plus; GroupClose]);
    (* ESTIMATE AMOUNT[: ]*\$?([\d,\.]+) *)
    ("Estimated Damage",
      lit "ESTIMATE AMOUNT" ++ [Atom (OneOf [Chr ":"; Chr sp]%char) Star]
      ++ [Atom (Lit "$"%char) Opt]
      ++ [GroupOpen; Atom (OneOf [Digit; Chr ","; Chr "."]%char) Plus; GroupClose]);
    (* AUTOMOBILE LOSS NOTICE *)
    ("Asset Type", lit "AUTOMOBILE LOSS NOTICE") ].

End Patterns.

(** [AgentOutput] *)
Record AgentOutput : Type := {
  extractedFields : field_map;
  missingFields : list string;
  recommendedRoute : string;
  reasoning : string
}.

(** [flags=re.IGNORECASE | re.DOTALL] *)
Definition search_flags : Re.flags := {| Re.IGNORECASE := true; Re.DOTALL := true |}.

(** One turn of the loop over [FIELD_PATTERNS.items()]. *)
Definition extract_entry (text : string) (fields : field_map)
    (entry : string * Re.regex) : result field_map :=
  let '(field, pattern) := entry in
  match Re.search search_flags pattern text with
  | Some m =>
      g ← Re.group m 1;
      let value := Str.strip g in
      let value := if String.eqb field "Asset Type" then "Automobile" else value in
      mret (<[field := Some value]> fields)
  | None => mret fields
  end.

Fixpoint extract_loop (text : string) (entries : list (string * Re.regex))
    (fields : field_map) : result field_map :=
  match entries with
  | [] => mret fields
  | entry :: entries' =>
      fields' ← extract_entry text fields entry;
      extract_loop text entries' fields'
  end.

(** [{k: None for k in MANDATORY_FIELDS}] *)
Definition empty_fields : field_map :=
  foldl (fun d k => <[k := None]> d) ∅ MANDATORY_FIELDS.

Definition extract_fields (text : string) : result field_map :=
  let fields := empty_fields in
  (* 1. Regex-based extraction *)
  fields ← extract_loop text FIELD_PATTERNS fields;
  (* 2. Asset type fallback from title *)
  let fields :=
    if negb (bool_decide (is_Some (get fields "Asset Type")))
       && Str.contains "AUTOMOBILE LOSS NOTICE" (Str.upper text)
    then <["Asset Type" := Some "Automobile"]> fields
    else fields in
  mret fields.

Definition parse_amount (amount_str : option string) : result (option Float.float) :=
  if negb (truthy amount_str) then mret None
  else
    let cleaned :=
      Re.sub_delete (Re.NoneOf [Re.Digit; Re.Chr "."%char])
                    (default EmptyString amount_str) in
    if negb (Str.truthy cleaned) then mret None
    else
      match Float.of_string cleaned with
      | Ok v => mret (Some v)
      | Raise ValueError => mret None
      | Raise e => Raise e
      end.

Definition suspicious_words : list string := ["fraud"; "inconsistent"; "staged"].

Definition apply_routing_rules (fields : field_map) (missing : list string)
    : result (string * string) :=
  let description := Str.lower (or_empty (get fields "Description")) in
  let claim_type := Str.lower (or_empty (get fields "Claim Type")) in
  estimate_val ← parse_amount (get fields "Estimated Damage");
  (* 1. Missing mandatory fields: Manual review *)
  if negb (bool_decide (missing = [])) then
    let reason :=
      "One or more mandatory fields are missing: " +:+ Str.join ", " missing in
    mret ("Manual review", reason)
  (* 2. Suspicious keywords: Investigation Flag *)
  else if existsb (fun word => Str.contains word description) suspicious_words then
    mret ("Investigation Flag",
          "Description contains potential fraud-related keywords.")
  (* 3. Injury claims: Specialist Queue *)
  else if Str.contains "injury" claim_type then
    mret ("Specialist Queue",
          "Claim type is injury, so it is routed to the specialist queue.")
  else
    (* 4. Fast-track if estimate < 25k *)
    match estimate_val with
    | Some v =>
        if Float.ltb v (Float.of_Z 25000) then
          mret ("Fast-track",
                "Estimated damage (" +:+ Float.repr v +:+ ") is less than 25,000.")
        else
          mret ("Standard Queue",
                "All mandatory fields present, no special conditions matched.")
    (* 5. Fallback *)
    | None =>
        mret ("Standard Queue",
              "All mandatory fields present, no special conditions matched.")
    end.

Definition find_missing_fields (fields : field_map) : list string :=
  List.filter (fun name => negb (truthy (get fields name))) MANDATORY_FIELDS.

(** [process_pdf] from the extracted text on. *)
Definition process_text (text : string) : result AgentOutput :=
  fields ← extract_fields text;
  let missing := find_missing_fields fields in
  '(route, reasoning) ← apply_routing_rules fields missing;
  mret {| extractedFields := fields;
          missingFields := missing;
          recommendedRoute := route;
          reasoning := reasoning |}.

(** [process_pdf], with the text extraction of the PDF library as a
    parameter. *)
Definition process_pdf (extract_text_from_pdf : string -> string)
    (pdf_path : string) : result AgentOutput :=
  let text := extract_text_from_pdf pdf_path in
  process_text text.

(** [extract_text_from_pdf], with the PDF library as a parameter: [pages]
    holds what [page.extract_text()] returns for each page of the opened
    file, in order, [None] for a page without text. *)
Definition extract_text_from_pdf (pages : list (option string)) : string :=
  let text_parts := (fun page => or_empty page) <$> pages in
  Str.join (String Char.newline EmptyString) text_parts.

(** * The vocabulary of the statements *)

(** ** The title phrase and the extraction table *)

(** The title phrase of the form. *)
Definition TITLE : string := "AUTOMOBILE LOSS NOTICE".

(** The pattern of the title phrase, the last entry of the table. *)
Definition title_pattern : Re.regex := Re.lit TITLE.

(** The entries of the table before it. *)
Definition capturing_entries : list (string * Re.regex) := take 8 FIELD_PATTERNS.

(** The two ways the title phrase is looked for. *)
Definition title_matches (text : string) : bool :=
  bool_decide (is_Some (Re.search search_flags title_pattern text)).

Definition title_in_upper (text : string) : bool :=
  Str.contains TITLE (Str.upper text).

(** ** Texts and stored values *)

(** [s] contains [w] when case is ignored: some part of [s] equals [w] up
    to the case of its letters. *)
Definition contains_ci (w s : string) : Prop :=
  exists pre mid post, s = pre +:+ mid +:+ post /\ Str.lower mid = Str.lower w.

(** A stored value that is absent or the empty string. *)
Definition absent_or_empty (v : option string) : Prop :=
  v = None \/ v = Some EmptyString.

(** A stored value that is absent or blank: nothing but white space, which
    includes the empty string. *)
Definition absent_or_blank (v : option string) : Prop :=
  match v with
  | None => True
  | Some s => Str.forallb Char.is_space s = true
  end.

(** A Field Map whose stored strings are trimmed. *)
Definition trimmed (fields : field_map) : Prop :=
  forall name s, get fields name = Some s -> Str.strip s = s.

#[global] Instance absent_or_empty_dec (v : option string) : Decision (absent_or_empty v).
Proof. unfold absent_or_empty. apply _. Defined.

#[global] Instance absent_or_blank_dec (v : option string) : Decision (absent_or_blank v).
Proof. destruct v; simpl; apply _. Defined.

(** ** Amounts *)

(** The characters the parser keeps: digits and the decimal point. *)
Definition kept (c : ascii) : bool := Char.is_digit c || Ascii.eqb c "."%char.

Definition digits (s : string) : Prop := Str.forallb Char.is_digit s = true.

(** [s] writes a decimal number with integer digits [i] and fractional
    digits [f]: "i.f", or "i" alone when there is no point; one of the two
    parts may be empty, not both. *)
Definition decimal_number (s i f : string) : Prop :=
  digits i /\ digits f /\ i +:+ f <> EmptyString
  /\ (s = i +:+ "." +:+ f \/ (s = i /\ f = EmptyString)).

(** The float of the decimal number "i.f". *)
Definition decimal_float (i f : string) : Float.float :=
  Float.of_decimal (Float.digits_value 0 (i +:+ f)) (Z.of_nat (String.length f)).

(** ** Decisions *)

(** The justification of Manual review. *)
Definition missing_reason (missing : list string) : string :=
  "One or more mandatory fields are missing: " +:+ Str.join ", " missing.

(** The Routing Decision and its justification. *)
Definition decision (r : result AgentOutput) : result (string * string) :=
  out ← r; mret (recommendedRoute out, reasoning out).

(** ** Sample Field Maps and texts *)

(** A Field Map with every mandatory field present: Claim Type
    "Bodily Injury", Estimated Damage "$50,000", and a Description that
    mentions fraud. *)
Definition flagged_injury_fields : field_map :=
  <["Policy Number" := Some "PX-1234/7"]> (
  <["Policyholder Name" := Some "JOHN Q. PUBLIC"]> (
  <["Date of Loss" := Some "03/14/2024"]> (
  <["Time of Loss" := Some "10:30 AM"]> (
  <["Location" := Some "12 Main Street, Springfield"]> (
  <["Description" := Some "Possible FRAUD: the report is Inconsistent"]> (
  <["Claim Type" := Some "Bodily Injury"]> (
  <["Estimated Damage" := Some "$50,000"]> (
  <["Asset Type" := Some "Automobile"]> (
  <["Initial Estimate" := Some "$48,000"]> (
  <["Attachments" := Some "photos.zip"]> empty_fields)))))))))).

(** The same with a Description without any suspicious word. *)
Definition injury_fields : field_map :=
  <["Description" := Some "Rear-end collision at a junction."]> flagged_injury_fields.

(** A Field Map with every mandatory field present whose Location is one
    blank. *)
Definition blank_location_fields : field_map :=
  <["Location" := Some " "]> injury_fields.

(** A Field Map, its strings trimmed, whose Location is the empty string and
    whose Attachments are absent. *)
Definition partly_filled_fields : field_map :=
  <["Location" := Some EmptyString]> (<["Attachments" := None]> injury_fields).

Definition nl : string := String Char.newline EmptyString.

(** The labeled values of a loss notice, one label for each of the eleven
    fields but the title: Claim Type "Comprehensive", Estimated Damage
    "$10,000", a Description without any suspicious word. *)
Definition notice_lines : string :=
  Str.join nl
    [ "POLICY NUMBER PX-1234/7";
      "NAME OF INSURED (First, Middle, Last)";
      "JOHN Q. PUBLIC";
      "DATE OF LOSS AND TIME 03/14/2024 10:30 AM";
      "LINE OF BUSINESS Comprehensive";
      "ESTIMATE AMOUNT: $10,000";
      "INITIAL ESTIMATE: $9,500";
      "ATTACHMENTS: photos.zip";
      "LOCATION OF LOSS";
      "12 Main Street, Springfield";
      "DESCRIPTION OF ACCIDENT";
      "Hail damaged the hood and the roof." ].

(** The notice under its title. *)
Definition titled_notice : string := "AUTOMOBILE LOSS NOTICE" +:+ nl +:+ notice_lines.

(** A title written with a sharp s: no match for the pattern of the table,
    and "AUTOMOBILE LOSS NOTICE" once in upper case. *)
Definition sharp_title : string :=
  "Automobile Lo" +:+ String Char.sharp_s " Notice".

(** The notice under that title: every field with an extraction rule is
    found in it. *)
Definition sharp_titled_notice : string := sharp_title +:+ nl +:+ notice_lines.

(** The values of a Field Map, in the order of the Mandatory Field Set. *)
Definition values (fields : field_map) : list (string * option string) :=
  (fun name => (name, get fields name)) <$> MANDATORY_FIELDS.

(** The Asset Type of the Field Map a call returned. *)
Definition asset_type (r : result field_map) : result (option string) :=
  fields ← r; mret (get fields "Asset Type").

(** The Field Map of a call completed with the three values the program
    leaves to another system, and the decision of the routing engine for
    it. *)
Definition supplied (fields : field_map) : field_map :=
  <["Asset Type" := Some "Automobile"]> (
  <["Initial Estimate" := Some "$9,500"]> (
  <["Attachments" := Some "photos.zip"]> fields)).

Definition route_supplied (r : result field_map) : result (list string * (string * string)) :=
  fields ← r;
  let missing := find_missing_fields (supplied fields) in
  d ← apply_routing_rules (supplied fields) missing;
  mret (missing, d).

(** ** Routes *)

(** The labels the routing engine returns. *)
Definition ROUTES : list string :=
  [ "Manual review"; "Investigation Flag"; "Specialist Queue"; "Fast-track";
    "Standard Queue" ].

(** A Description without any suspicious word, and a Claim Type that is no
    injury, whatever the case of the letters; an absent value has no word. *)
Definition unsuspicious (fields : field_map) : Prop :=
  forall word, word ∈ suspicious_words ->
    ~ contains_ci word (or_empty (get fields "Description")).

Definition no_injury (fields : field_map) : Prop :=
  ~ contains_ci "injury" (or_empty (get fields "Claim Type")).

(** A float that is zero, positive or plus infinity. *)
Definition nonnegative (x : Float.float) : Prop :=
  match x with
  | S754_zero s | S754_infinity s | S754_finite s _ _ => s = false
  | S754_nan => False
  end.

(** ** Sample Field Maps for the routing rules *)

(** A complete Field Map that no special rule applies to, with an Estimated
    Damage that holds no number. *)
Definition unreadable_estimate_fields : field_map :=
  <["Claim Type" := Some "Comprehensive"]> (
  <["Estimated Damage" := Some "to be assessed"]> injury_fields).

(** ** What a pattern matches *)

(** The numbers of repetitions a quantifier allows. *)
Definition repetitions (q : Re.quant) (n : nat) : Prop :=
  match q with
  | Re.Once => n = 1
  | Re.Opt => n <= 1
  | Re.Star | Re.LazyStar => True
  | Re.Plus => 1 <= n
  end.

(** [matches fl r s rest]: the pattern [r] matches a prefix of [s] and
    leaves [rest], by some choice of the numbers of repetitions. *)
Fixpoint matches (fl : Re.flags) (r : Re.regex) (s rest : string) : Prop :=
  match r with
  | [] => s = rest
  | Re.GroupOpen :: r' | Re.GroupClose :: r' => matches fl r' s rest
  | Re.Atom a q :: r' =>
      exists mid s',
        s = mid +:+ s'
        /\ Str.forallb (Re.atom_matches fl a) mid = true
        /\ repetitions q (String.length mid)
        /\ matches fl r' s' rest
  end.

(** ** The characters of the captured values *)

Definition one_of (chars : string) (c : ascii) : bool :=
  existsb (Ascii.eqb c) (list_ascii_of_string chars).

(** Letters, digits, underscore, hyphen and slash. *)
Definition policy_char (c : ascii) : bool := Char.is_word c || one_of "-/" c.

(** Digits, slash and hyphen. *)
Definition date_char (c : ascii) : bool := Char.is_digit c || one_of "/-" c.

(** Digits, comma and point. *)
Definition amount_char (c : ascii) : bool := Char.is_digit c || one_of ",." c.

(** Digits, the letters of AM and PM in either case, colon and blank. *)
Definition time_char (c : ascii) : bool := Char.is_digit c || one_of "APMapm: " c.

(** ASCII letters, digits, blank, comma, point, apostrophe and hyphen. *)
Definition name_char (c : ascii) : bool :=
  Char.is_upper c || Char.is_lower c || Char.is_digit c || one_of " ,.'-" c.

(** The label that the pattern of each capturing entry starts with. *)
Definition LABELS : list (string * string) :=
  [ ("Policy Number", "POLICY NUMBER");
    ("Policyholder Name", "NAME OF INSURED");
    ("Date of Loss", "DATE OF LOSS AND TIME");
    ("Time of Loss", "DATE OF LOSS AND TIME");
    ("Location", "LOCATION OF LOSS");
    ("Description", "DESCRIPTION OF ACCIDENT");
    ("Claim Type", "LINE OF BUSINESS");
    ("Estimated Damage", "ESTIMATE AMOUNT") ].

(** The characters of the values of the fields whose group is a character
    set. *)
Definition VALUE_CHARS : list (string * (ascii -> bool)) :=
  [ ("Policy Number", policy_char);
    ("Policyholder Name", name_char);
    ("Date of Loss", date_char);
    ("Time of Loss", time_char);
    ("Claim Type", name_char);
    ("Estimated Damage", amount_char) ].

(** The fields whose set of characters has no white space. *)
Definition SOLID_FIELDS : list string :=
  ["Policy Number"; "Date of Loss"; "Estimated Damage"].

(** The fields whose group is [(.+)]. *)
Definition REST_FIELDS : list string := ["Location"; "Description"].

(** The value a call stored under a name. *)
Definition stored (name : string) (r : result field_map) : result (option string) :=
  fields ← r; mret (get fields name).

(** What an entry of the table gives on a text: the trimmed first group of
    the leftmost match of its pattern, nothing without a match. *)
Definition captured (pattern : Re.regex) (text : string) : option string :=
  match Re.search search_flags pattern text with
  | Some m =>
      match Re.group m 1 with
      | Ok g => Some (Str.strip g)
      | Raise _ => None
      end
  | None => None
  end.

(** ** Whole amounts *)

(** The number that the digits of a string write. *)
Definition whole_number (s : string) : Z :=
  Float.digits_value 0 (Str.filter kept s).

(** A complete Field Map that no special rule applies to, with the given
    Estimated Damage. *)
Definition fields_with_estimate (estimate : string) : field_map :=
  <["Estimated Damage" := Some estimate]> unreadable_estimate_fields.

(** The fields the routing engine reads. *)
Definition ROUTING_FIELDS : list string :=
  ["Description"; "Claim Type"; "Estimated Damage"].

(** * Properties *)

(** ** The matcher: every group of the pattern is captured by a match *)

Module ReFacts.
Import Re.

Section Quantifiers.
Variable p : ascii -> bool.
Variable next : string -> outcome.
Variable x : string * list string.

Lemma star_next (s : string) :
  star p next s = Some x -> exists s', next s' = Some x.
Proof.
  induction s as [|c s IH]; simpl.
  - eauto.
  - destruct (p c); [|eauto].
    destruct (star p next s) as [y|] eqn:E; simpl; [|eauto].
    intros [= ->]. auto.
Qed.

Lemma lazy_star_next (s : string) :
  lazy_star p next s = Some x -> exists s', next s' = Some x.
Proof.
  induction s as [|c s IH]; simpl.
  - destruct (next EmptyString) eqn:E; simpl; [|discriminate].
    intros [= ->]. eauto.
  - destruct (next (String c s)) eqn:E; simpl.
    + intros [= ->]. eauto.
    + destruct (p c); [auto|discriminate].
Qed.

Lemma quantified_next (q : quant) (s : string) :
  match q with
  | Once => once p next
  | Opt => opt p next
  | Star => star p next
  | Plus => plus p next
  | LazyStar => lazy_star p next
  end s = Some x ->
  exists s', next s' = Some x.
Proof.
  destruct q.
  - destruct s as [|c s]; simpl; [discriminate|].
    destruct (p c); [eauto|discriminate].
  - destruct s as [|c s]; simpl; [eauto|].
    destruct (p c); [|eauto].
    destruct (next s) eqn:E; simpl; [|eauto].
    intros [= ->]. eauto.
  - apply star_next.
  - destruct s as [|c s]; simpl; [discriminate|].
    destruct (p c); [apply star_next|discriminate].
  - apply lazy_star_next.
Qed.
End Quantifiers.

Lemma match_here_groups (fl : flags) (r : regex) :
  forall opened caps s rest caps',
    match_here fl r opened caps s = Some (rest, caps') ->
    length caps' = length caps + group_count r.
Proof.
  induction r as [|n r IH]; intros opened caps s rest caps' H.
  - simpl in H. injection H as _ <-. simpl. lia.
  - destruct n as [a q| |]; simpl in H.
    + apply quantified_next in H as [s' H]. apply IH in H. simpl. exact H.
    + apply IH in H. simpl. exact H.
    + apply IH in H. rewrite length_app in H. simpl in *. lia.
Qed.

Lemma search_groups (fl : flags) (r : regex) (text : string) (m : match_object) :
  search fl r text = Some m -> length (groups m) = group_count r.
Proof.
  induction text as [|c text IH]; simpl.
  - destruct (match_here fl r EmptyString [] EmptyString) as [[rest caps]|] eqn:E;
      [|discriminate].
    intros [= <-]. simpl. apply match_here_groups in E. exact E.
  - destruct (match_here fl r (String c text) [] (String c text))
      as [[rest caps]|] eqn:E; [|exact IH].
    intros [= <-]. simpl. apply match_here_groups in E. exact E.
Qed.

(** [m.group(1)] returns for a pattern with a group, and raises IndexError
    for a pattern without one. *)
Lemma group_1_ok (fl : flags) (r : regex) (text : string) (m : match_object) :
  search fl r text = Some m -> 1 <= group_count r ->
  exists g, group m 1 = Ok g.
Proof.
  intros H Hn. apply search_groups in H. unfold group.
  destruct (groups m) as [|g gs]; simpl in *; [lia|eauto].
Qed.

Lemma group_1_raises (fl : flags) (r : regex) (text : string) (m : match_object) :
  search fl r text = Some m -> group_count r = 0 ->
  group m 1 = Raise IndexError.
Proof.
  intros H Hn. apply search_groups in H. unfold group.
  destruct (groups m) as [|g gs]; simpl in *; [reflexivity|lia].
Qed.

End ReFacts.

(** ** The extraction loop *)

Lemma FIELD_PATTERNS_split :
  FIELD_PATTERNS = capturing_entries ++ [("Asset Type", title_pattern)].
Proof. reflexivity. Qed.

Lemma capturing_entries_groups :
  Forall (fun e => 1 <= Re.group_count e.2) capturing_entries.
Proof. repeat constructor. Qed.

Lemma capturing_entries_names :
  map fst capturing_entries =
  [ "Policy Number"; "Policyholder Name"; "Date of Loss"; "Time of Loss";
    "Location"; "Description"; "Claim Type"; "Estimated Damage" ].
Proof. reflexivity. Qed.

Lemma extract_entry_ok (text : string) (fields : field_map) (e : string * Re.regex) :
  1 <= Re.group_count e.2 ->
  exists fields', extract_entry text fields e = Ok fields'
    /\ (fields' = fields \/ exists v, fields' = <[e.1 := Some v]> fields).
Proof.
  intros Hn. destruct e as [field pattern]. unfold extract_entry.
  destruct (Re.search search_flags pattern text) as [m|] eqn:E.
  - destruct (ReFacts.group_1_ok _ _ _ _ E Hn) as [g ->]. simpl. eauto.
  - eauto.
Qed.

Lemma extract_loop_app (text : string) (a b : list (string * Re.regex))
    (fields : field_map) :
  extract_loop text (a ++ b) fields =
  (fields' ← extract_loop text a fields; extract_loop text b fields').
Proof.
  revert fields. induction a as [|e a IH]; intros fields; simpl; [reflexivity|].
  destruct (extract_entry text fields e) as [f|x]; simpl; [apply IH|reflexivity].
Qed.

(** The loop over entries with a group returns, keeps the key set when the
    names of the entries are keys already, and leaves every other key as
    it was. *)
Lemma extract_loop_ok (text : string) (entries : list (string * Re.regex)) :
  Forall (fun e => 1 <= Re.group_count e.2) entries ->
  forall fields : field_map,
    exists fields', extract_loop text entries fields = Ok fields'
      /\ (Forall (fun e => e.1 ∈ dom fields) entries -> dom fields' = dom fields)
      /\ (forall k, k ∉ map fst entries -> fields' !! k = fields !! k).
Proof.
  induction 1 as [|e entries He _ IH]; intros fields; simpl.
  - exists fields. auto.
  - destruct (extract_entry_ok text fields e He) as (f1 & -> & Hf1). simpl.
    destruct (IH f1) as (f2 & -> & Hdom & Hother). exists f2.
    split; [reflexivity|]. split.
    + intros Hin. apply Forall_cons in Hin as [Hin1 Hin].
      assert (dom f1 = dom fields) as Hd.
      { destruct Hf1 as [->|[v ->]]; [reflexivity|].
        rewrite dom_insert_L. set_solver. }
      rewrite Hdom; [exact Hd|]. rewrite Hd. exact Hin.
    + intros k Hk. rewrite Hother by set_solver.
      destruct Hf1 as [->|[v ->]]; [reflexivity|].
      apply lookup_insert_ne. set_solver.
Qed.

(** ** What [extract_fields] returns *)

Lemma empty_fields_lookup (k : string) :
  k ∈ MANDATORY_FIELDS -> empty_fields !! k = Some None.
Proof.
  intros Hk. unfold MANDATORY_FIELDS in Hk.
  repeat (apply elem_of_cons in Hk as [->|Hk]; [reflexivity|]).
  by apply elem_of_nil in Hk.
Qed.

Lemma empty_fields_dom : dom empty_fields = list_to_set MANDATORY_FIELDS.
Proof.
  unfold empty_fields, MANDATORY_FIELDS. simpl.
  rewrite !dom_insert_L, dom_empty_L. set_solver.
Qed.

(** The table pass, before its last entry, on the fresh dictionary. *)
Lemma capturing_pass (text : string) :
  exists fields : field_map,
    extract_loop text capturing_entries empty_fields = Ok fields
    /\ dom fields = list_to_set MANDATORY_FIELDS
    /\ fields !! "Asset Type" = Some None
    /\ fields !! "Initial Estimate" = Some None
    /\ fields !! "Attachments" = Some None.
Proof.
  destruct (extract_loop_ok text capturing_entries capturing_entries_groups empty_fields)
    as (fields & Hloop & Hdom & Hother).
  exists fields. split; [exact Hloop|]. split.
  - rewrite Hdom; [apply empty_fields_dom|].
    rewrite empty_fields_dom. unfold capturing_entries, MANDATORY_FIELDS. simpl.
    repeat (constructor; [set_solver|]). constructor.
  - rewrite capturing_entries_names in Hother.
    rewrite !Hother by (rewrite !not_elem_of_cons; repeat split; (discriminate || apply not_elem_of_nil)).
    repeat split; apply empty_fields_lookup; unfold MANDATORY_FIELDS; set_solver.
Qed.

Lemma extract_loop_single (text : string) (e : string * Re.regex) (fields : field_map) :
  extract_loop text [e] fields = extract_entry text fields e.
Proof. simpl. destruct (extract_entry text fields e); reflexivity. Qed.

(** The last entry of the table: its pattern has no group. *)
Lemma extract_entry_title (text : string) (fields : field_map) :
  extract_entry text fields ("Asset Type", title_pattern) =
  if title_matches text then Raise IndexError else Ok fields.
Proof.
  unfold extract_entry, title_matches.
  destruct (Re.search search_flags title_pattern text) as [m|] eqn:E.
  - rewrite (ReFacts.group_1_raises _ _ _ _ E eq_refl).
    rewrite bool_decide_eq_true_2 by eauto. reflexivity.
  - rewrite bool_decide_eq_false_2 by (intros [? [=]]). reflexivity.
Qed.

(** [extract_fields] raises IndexError when the pattern of the title phrase
    matches, and otherwise returns the dictionary of the table pass, with the
    Asset Type set when the upper-cased text has the phrase. *)
Lemma extract_fields_cases (text : string) :
  exists fields : field_map,
    extract_loop text capturing_entries empty_fields = Ok fields
    /\ extract_fields text =
       if title_matches text then Raise IndexError
       else if title_in_upper text
            then Ok (<["Asset Type" := Some "Automobile"]> fields)
            else Ok fields.
Proof.
  destruct (capturing_pass text) as (fields & Hloop & _ & Hasset & _).
  exists fields. split; [exact Hloop|].
  unfold extract_fields.
  rewrite FIELD_PATTERNS_split, extract_loop_app, Hloop.
  change (Ok fields ≫= _) with
    (extract_loop text [("Asset Type", title_pattern)] fields).
  rewrite extract_loop_single, extract_entry_title.
  destruct (title_matches text); [reflexivity|].
  change (Ok fields ≫= ?k) with (k fields). cbv beta.
  unfold get, title_in_upper. rewrite Hasset. simpl.
  destruct (Str.contains _ _); reflexivity.
Qed.

Lemma extract_fields_returned (text : string) (fields : field_map) :
  extract_fields text = Ok fields ->
  title_matches text = false
  /\ dom fields = list_to_set MANDATORY_FIELDS
  /\ fields !! "Asset Type" =
     Some (if title_in_upper text then Some "Automobile" else None)
  /\ fields !! "Initial Estimate" = Some None
  /\ fields !! "Attachments" = Some None.
Proof.
  destruct (capturing_pass text) as (f1 & Hloop & Hdom & Hasset & Hinit & Hatt).
  destruct (extract_fields_cases text) as (f1' & Hloop' & ->).
  rewrite Hloop in Hloop'. injection Hloop' as <-.
  destruct (title_matches text); [discriminate|].
  intros H. split; [reflexivity|].
  destruct (title_in_upper text); injection H as <-.
  - split; [rewrite dom_insert_L, Hdom; unfold MANDATORY_FIELDS; set_solver|].
    rewrite lookup_insert_eq, !lookup_insert_ne by discriminate. auto.
  - auto.
Qed.

Lemma extract_fields_raised (text : string) (e : exn) :
  extract_fields text = Raise e -> e = IndexError /\ title_matches text = true.
Proof.
  destruct (extract_fields_cases text) as (f1 & _ & ->).
  destruct (title_matches text); [intros [= <-]; auto|].
  destruct (title_in_upper text); discriminate.
Qed.

(** ** Strings: substrings and case *)

#[local] Arguments String.append : simpl nomatch.

Module StrFacts.

Lemma append_assoc (a b c : string) : (a +:+ b) +:+ c = a +:+ (b +:+ c).
Proof. induction a as [|x a IH]; simpl; [reflexivity|]. by rewrite IH. Qed.

Lemma append_empty_r (a : string) : a +:+ EmptyString = a.
Proof. induction a as [|x a IH]; simpl; [reflexivity|]. by rewrite IH. Qed.

Lemma startswith_spec (p s : string) :
  Str.startswith p s = true <-> exists post, s = p +:+ post.
Proof.
  revert s. induction p as [|a p IH]; intros s; simpl.
  - split; eauto.
  - destruct s as [|b s].
    + split; [discriminate|]. intros [post [=]].
    + rewrite andb_true_iff, IH, Ascii.eqb_eq. split.
      * intros [-> [post ->]]. eauto.
      * intros [post [= -> ->]]. eauto.
Qed.

(** [sub in s] holds exactly when [s] is some text, [sub], some text. *)
Lemma contains_spec (sub s : string) :
  Str.contains sub s = true <-> exists pre post, s = pre +:+ sub +:+ post.
Proof.
  induction s as [|c s IH].
  - simpl. rewrite orb_false_r, startswith_spec. split.
    + intros [post ->]. exists EmptyString, post. reflexivity.
    + intros ([|x pre] & post & H); [eauto|discriminate].
  - cbn [Str.contains]. rewrite orb_true_iff, startswith_spec, IH. split.
    + intros [[post ->]|(pre & post & ->)].
      * exists EmptyString, post. reflexivity.
      * exists (String c pre), post. reflexivity.
    + intros ([|x pre] & post & H).
      * left. eauto.
      * right. injection H as -> ->. eauto.
Qed.

Lemma map_app (f : ascii -> ascii) (a b : string) :
  Str.map f (a +:+ b) = Str.map f a +:+ Str.map f b.
Proof. induction a as [|x a IH]; simpl; [reflexivity|]. by rewrite IH. Qed.

Lemma map_app_inv (f : ascii -> ascii) (s a b : string) :
  Str.map f s = a +:+ b ->
  exists s1 s2, s = s1 +:+ s2 /\ Str.map f s1 = a /\ Str.map f s2 = b.
Proof.
  revert s. induction a as [|x a IH]; intros s H.
  - exists EmptyString, s. auto.
  - destruct s as [|c s]; [discriminate|]. simpl in H. injection H as Hc H.
    destruct (IH s H) as (s1 & s2 & -> & <- & <-).
    exists (String c s1), s2. simpl. rewrite Hc. auto.
Qed.

End StrFacts.

(** The program's test, a substring test on the lower-cased text, decides
    it for a word written in lower case. *)
Lemma contains_lower (w s : string) :
  Str.lower w = w ->
  Str.contains w (Str.lower s) = true <-> contains_ci w s.
Proof.
  intros Hw. rewrite StrFacts.contains_spec. unfold contains_ci. rewrite Hw. split.
  - intros (pre & post & H). unfold Str.lower in H.
    apply StrFacts.map_app_inv in H as (s1 & s2 & -> & <- & H).
    apply StrFacts.map_app_inv in H as (s3 & s4 & -> & <- & <-).
    exists s1, s3, s4. auto.
  - intros (pre & mid & post & -> & <-).
    exists (Str.lower pre), (Str.lower post).
    unfold Str.lower. by rewrite !StrFacts.map_app.
Qed.

(** ** The amount parser and the routing chain return *)

Lemma of_string_raises (s : string) (e : exn) :
  Float.of_string s = Raise e -> e = ValueError.
Proof.
  unfold Float.of_string. destruct (Float.split_point s) as [i f].
  destruct (_ && _); [discriminate|]. by intros [= <-].
Qed.

Lemma parse_amount_returns (amount_str : option string) :
  exists v, parse_amount amount_str = Ok v.
Proof.
  unfold parse_amount. destruct (negb (truthy amount_str)); [eauto|].
  destruct (negb (Str.truthy _)); [eauto|].
  destruct (Float.of_string _) as [v|e] eqn:E; [eauto|].
  apply of_string_raises in E as ->. eauto.
Qed.

(** Priority 1. *)
Lemma routing_missing (fields : field_map) (missing : list string) :
  missing <> [] ->
  apply_routing_rules fields missing = Ok ("Manual review", missing_reason missing).
Proof.
  intros Hm. unfold apply_routing_rules.
  destruct (parse_amount_returns (get fields "Estimated Damage")) as [v ->].
  change (Ok v ≫= ?k) with (k v). cbv beta.
  rewrite bool_decide_eq_false_2 by exact Hm. reflexivity.
Qed.

(** Priority 2. *)
Lemma routing_suspicious (fields : field_map) :
  existsb (fun word => Str.contains word (Str.lower (or_empty (get fields "Description"))))
          suspicious_words = true ->
  apply_routing_rules fields [] =
  Ok ("Investigation Flag", "Description contains potential fraud-related keywords.").
Proof.
  intros Hs. unfold apply_routing_rules.
  destruct (parse_amount_returns (get fields "Estimated Damage")) as [v ->].
  change (Ok v ≫= ?k) with (k v). cbv beta.
  rewrite bool_decide_eq_true_2 by reflexivity. cbn [negb].
  rewrite Hs. reflexivity.
Qed.

(** Priority 3. *)
Lemma routing_injury (fields : field_map) :
  existsb (fun word => Str.contains word (Str.lower (or_empty (get fields "Description"))))
          suspicious_words = false ->
  Str.contains "injury" (Str.lower (or_empty (get fields "Claim Type"))) = true ->
  apply_routing_rules fields [] =
  Ok ("Specialist Queue",
      "Claim type is injury, so it is routed to the specialist queue.").
Proof.
  intros Hs Hi. unfold apply_routing_rules.
  destruct (parse_amount_returns (get fields "Estimated Damage")) as [v ->].
  change (Ok v ≫= ?k) with (k v). cbv beta.
  rewrite bool_decide_eq_true_2 by reflexivity. cbn [negb].
  rewrite Hs, Hi. reflexivity.
Qed.

Lemma or_empty_some (s : string) : or_empty (Some s) = s.
Proof. destruct s; reflexivity. Qed.

(** ** The routing engine *)

Lemma join_contains (sep name : string) (l : list string) :
  name ∈ l -> exists pre post, Str.join sep l = pre +:+ name +:+ post.
Proof.
  induction l as [|x l IH]; intros Hin; [by apply elem_of_nil in Hin|].
  destruct l as [|y l].
  - apply list_elem_of_singleton in Hin as ->.
    exists EmptyString, EmptyString. simpl. by rewrite StrFacts.append_empty_r.
  - change (Str.join sep (x :: y :: l)) with (x +:+ sep +:+ Str.join sep (y :: l)).
    apply elem_of_cons in Hin as [->|Hin].
    + exists EmptyString, (sep +:+ Str.join sep (y :: l)). reflexivity.
    + destruct (IH Hin) as (pre & post & ->).
      exists (x +:+ sep +:+ pre), post. by rewrite !StrFacts.append_assoc.
Qed.

(** C7. Whatever the Field Map holds, a non-empty Missing List makes the
    routing engine return Manual review; the justification is the fixed
    sentence followed by the names of the Missing List, in its order and
    joined by ", ", so that every missing name occurs in it. *)
Theorem missing_list_forces_manual_review
    (fields : field_map) (missing : list string) :
  missing <> [] ->
  exists reason,
    apply_routing_rules fields missing = Ok ("Manual review", reason)
    /\ reason = "One or more mandatory fields are missing: " +:+ Str.join ", " missing
    /\ forall name, name ∈ missing -> Str.contains name reason = true.
Proof.
  intros Hm. exists (missing_reason missing).
  split; [by apply routing_missing|]. split; [reflexivity|].
  intros name Hin. apply StrFacts.contains_spec.
  destruct (join_contains ", " name missing Hin) as (pre & post & H).
  exists ("One or more mandatory fields are missing: " +:+ pre), post.
  unfold missing_reason. by rewrite H, StrFacts.append_assoc.
Qed.

Lemma missing_list_forces_manual_review_witness :
  exists reason,
    apply_routing_rules flagged_injury_fields ["Location"; "Attachments"]
    = Ok ("Manual review", reason)
    /\ reason = "One or more mandatory fields are missing: "
                +:+ Str.join ", " ["Location"; "Attachments"]
    /\ forall name, name ∈ ["Location"; "Attachments"] ->
                    Str.contains name reason = true.
Proof.
  apply (missing_list_forces_manual_review flagged_injury_fields
           ["Location"; "Attachments"]).
  discriminate.
Defined.

Lemma suspicious_words_lower (w : string) :
  w ∈ suspicious_words -> Str.lower w = w /\ Str.contains w EmptyString = false.
Proof.
  unfold suspicious_words. intros Hw.
  repeat (apply elem_of_cons in Hw as [->|Hw]; [split; reflexivity|]).
  by apply elem_of_nil in Hw.
Qed.

Lemma suspicious_existsb (s : string) :
  existsb (fun word => Str.contains word (Str.lower s)) suspicious_words = true
  <-> exists w, w ∈ suspicious_words /\ contains_ci w s.
Proof.
  rewrite existsb_exists. split.
  - intros (w & Hin & Hc). apply list_elem_of_In in Hin. exists w. split; [exact Hin|].
    apply contains_lower; [|exact Hc]. by apply suspicious_words_lower.
  - intros (w & Hin & Hc). exists w. split; [by apply list_elem_of_In|].
    apply contains_lower; [|exact Hc]. by apply suspicious_words_lower.
Qed.

(** C8. With an empty Missing List, a Description that contains "fraud",
    "inconsistent" or "staged", whatever the case of its letters, makes the
    routing engine return Investigation Flag, whatever the Claim Type and
    the other fields hold. *)
Theorem suspicious_description_is_flagged
    (fields : field_map) (description word : string) :
  get fields "Description" = Some description ->
  word = "fraud" \/ word = "inconsistent" \/ word = "staged" ->
  contains_ci word description ->
  apply_routing_rules fields [] =
  Ok ("Investigation Flag", "Description contains potential fraud-related keywords.").
Proof.
  intros Hd Hw Hc. apply routing_suspicious.
  rewrite Hd, or_empty_some. apply suspicious_existsb. exists word.
  split; [|exact Hc]. unfold suspicious_words.
  destruct Hw as [->|[->| ->]]; set_solver.
Qed.

Lemma suspicious_description_is_flagged_witness :
  get flagged_injury_fields "Claim Type" = Some "Bodily Injury"
  /\ apply_routing_rules flagged_injury_fields [] =
     Ok ("Investigation Flag", "Description contains potential fraud-related keywords.").
Proof.
  split; [reflexivity|].
  apply (suspicious_description_is_flagged flagged_injury_fields
           "Possible FRAUD: the report is Inconsistent" "fraud").
  - reflexivity.
  - left. reflexivity.
  - exists "Possible ", "FRAUD", ": the report is Inconsistent". split; reflexivity.
Defined.

(** C9. With an empty Missing List and a Description without any
    suspicious word, a Claim Type that contains "injury", whatever the case
    of its letters, makes the routing engine return Specialist Queue; the
    Estimated Damage plays no part. *)
Theorem injury_claim_goes_to_specialist (fields : field_map) (claim_type : string) :
  (forall description word,
      get fields "Description" = Some description ->
      word = "fraud" \/ word = "inconsistent" \/ word = "staged" ->
      ~ contains_ci word description) ->
  get fields "Claim Type" = Some claim_type ->
  contains_ci "injury" claim_type ->
  apply_routing_rules fields [] =
  Ok ("Specialist Queue",
      "Claim type is injury, so it is routed to the specialist queue.").
Proof.
  intros Hclean Hc Hi. apply routing_injury.
  - apply not_true_is_false. intros Hs.
    destruct (get fields "Description") as [d|] eqn:Hd.
    + rewrite or_empty_some in Hs.
      apply suspicious_existsb in Hs as (w & Hin & Hw).
      apply (Hclean d w eq_refl); [|exact Hw].
      unfold suspicious_words in Hin. set_solver.
    + apply existsb_exists in Hs as (w & Hin & Hw).
      apply list_elem_of_In, suspicious_words_lower in Hin as [_ Hin].
      change (Str.lower (or_empty None)) with EmptyString in Hw. congruence.
  - rewrite Hc, or_empty_some. by apply contains_lower.
Qed.

Lemma injury_claim_goes_to_specialist_witness :
  get injury_fields "Estimated Damage" = Some "$50,000"
  /\ apply_routing_rules injury_fields [] =
     Ok ("Specialist Queue",
         "Claim type is injury, so it is routed to the specialist queue.").
Proof.
  split; [reflexivity|].
  apply (injury_claim_goes_to_specialist injury_fields "Bodily Injury").
  - intros description word Hd Hw Hc. vm_compute in Hd. injection Hd as <-.
    assert (Str.lower word = word) as Hl by (destruct Hw as [->|[->| ->]]; reflexivity).
    apply (contains_lower _ _ Hl) in Hc.
    destruct Hw as [->|[->| ->]]; vm_compute in Hc; discriminate Hc.
  - reflexivity.
  - exists "Bodily ", "Injury", EmptyString. split; reflexivity.
Defined.

(** ** The amount parser *)

Module FloatFacts.

Lemma filter_ext (p q : ascii -> bool) (s : string) :
  (forall c, p c = q c) -> Str.filter p s = Str.filter q s.
Proof.
  intros H. induction s as [|c s IH]; simpl; [reflexivity|].
  by rewrite H, IH.
Qed.

(** [re.sub(r"[^\d\.]", "", s)] keeps the digits and the points. *)
Lemma cleaned_is_filter (s : string) :
  Re.sub_delete (Re.NoneOf [Re.Digit; Re.Chr "."%char]) s = Str.filter kept s.
Proof.
  unfold Re.sub_delete. apply filter_ext. intros c. unfold kept. simpl.
  destruct (Char.is_digit c), (Ascii.eqb c "."); reflexivity.
Qed.

Lemma digit_not_point (c : ascii) :
  Char.is_digit c = true -> Ascii.eqb c "."%char = false.
Proof. destruct c as [[] [] [] [] [] [] [] []]; (discriminate || reflexivity). Qed.

Lemma split_point_digits (i : string) :
  digits i -> Float.split_point i = (i, None).
Proof.
  unfold digits. induction i as [|c i IH]; simpl; [reflexivity|].
  intros [Hc Hi]%andb_true_iff.
  by rewrite (digit_not_point c Hc), (IH Hi).
Qed.

Lemma split_point_point (i f : string) :
  digits i -> Float.split_point (i +:+ "." +:+ f) = (i, Some f).
Proof.
  unfold digits. induction i as [|c i IH]; [reflexivity|].
  intros [Hc Hi]%andb_true_iff.
  change (Float.split_point (String c (i +:+ "." +:+ f)) = (String c i, Some f)).
  cbn [Float.split_point].
  by rewrite (digit_not_point c Hc), (IH Hi).
Qed.

Lemma split_point_inv (s i : string) (f : option string) :
  Float.split_point s = (i, f) ->
  match f with
  | Some f => s = i +:+ "." +:+ f
  | None => s = i
  end.
Proof.
  revert i. induction s as [|c s IH]; intros i; simpl.
  - by intros [= <- <-].
  - destruct (Ascii.eqb_spec c ".") as [->|_].
    + by intros [= <- <-].
    + destruct (Float.split_point s) as [i' f']. intros [= <- <-].
      specialize (IH i' eq_refl). destruct f'; simpl; by rewrite IH at 1.
Qed.

(** [float(s)] returns exactly on the decimal numbers. *)
Lemma of_string_ok (s : string) (v : Float.float) :
  Float.of_string s = Ok v <->
  exists i f, decimal_number s i f /\ v = decimal_float i f.
Proof.
  unfold Float.of_string, decimal_number, decimal_float, digits. split.
  - destruct (Float.split_point s) as [i f] eqn:E. apply split_point_inv in E.
    destruct (_ && _) eqn:C; [|discriminate]. intros [= <-].
    apply andb_true_iff in C as [[Hi Hf]%andb_true_iff Hne].
    apply negb_true_iff, String.eqb_neq in Hne.
    exists i, (default EmptyString f). repeat split; try assumption.
    destruct f; simpl; auto.
  - intros (i & f & (Hi & Hf & Hne & [->|[-> ->]]) & ->).
    + rewrite (split_point_point i f Hi). simpl. rewrite Hi, Hf. simpl.
      apply String.eqb_neq in Hne. by rewrite Hne.
    + rewrite (split_point_digits i Hi). simpl. rewrite Hi. simpl.
      apply String.eqb_neq in Hne. by rewrite Hne.
Qed.

Lemma of_string_cases (s : string) :
  (exists v, Float.of_string s = Ok v) \/ Float.of_string s = Raise ValueError.
Proof.
  destruct (Float.of_string s) as [v|e] eqn:E; [eauto|].
  apply of_string_raises in E as ->. auto.
Qed.

(** [parse_amount] in terms of [float] on the kept characters. *)
Lemma parse_amount_some (s : string) :
  parse_amount (Some s) =
  match Float.of_string (Str.filter kept s) with
  | Ok v => Ok (Some v)
  | Raise _ => Ok None
  end.
Proof.
  unfold parse_amount. rewrite cleaned_is_filter.
  destruct s as [|c s]; [reflexivity|].
  change (negb (truthy (Some (String c s)))) with false. cbv iota.
  change (default EmptyString (Some (String c s))) with (String c s).
  destruct (of_string_cases (Str.filter kept (String c s))) as [[v Hv]| Hv].
  - rewrite Hv. destruct (Str.filter kept (String c s)); [discriminate Hv|reflexivity].
  - rewrite Hv. destruct (Str.filter kept (String c s)); reflexivity.
Qed.

End FloatFacts.

(** C10. The amount parser never raises.  It removes every character that
    is neither a digit nor a decimal point; when nothing is left, or what is
    left is not a decimal number, the result is absent, and otherwise it is
    the float of that decimal number.  "$12,500.00" parses to 12500.0, and
    "12.5.00" gives absent. *)
Theorem amount_parser (s : string) :
  let cleaned := Str.filter kept s in
  (forall amount_str, exists r, parse_amount amount_str = Ok r)
  /\ (cleaned = EmptyString -> parse_amount (Some s) = Ok None)
  /\ (parse_amount (Some s) = Ok None <-> ~ exists i f, decimal_number cleaned i f)
  /\ (forall v, parse_amount (Some s) = Ok (Some v) <->
                exists i f, decimal_number cleaned i f /\ v = decimal_float i f)
  /\ parse_amount (Some "$12,500.00") = Ok (Some (Float.of_Z 12500))
  /\ Float.of_Z 12500 = S754_finite false (12500 * 2 ^ 39) (-39)
  /\ parse_amount (Some "12.5.00") = Ok None
  /\ parse_amount None = Ok None.
Proof.
  intros cleaned.
  assert (forall v, parse_amount (Some s) = Ok (Some v) <->
                    exists i f, decimal_number cleaned i f /\ v = decimal_float i f) as Hsome.
  { intros v. rewrite FloatFacts.parse_amount_some, <- FloatFacts.of_string_ok.
    fold cleaned. destruct (Float.of_string cleaned) as [v'|e]; split; congruence. }
  assert (parse_amount (Some s) = Ok None <-> ~ exists i f, decimal_number cleaned i f)
    as Hnone.
  { split.
    - intros H (i & f & Hd).
      assert (parse_amount (Some s) = Ok (Some (decimal_float i f))) as H'
        by (apply Hsome; eauto).
      congruence.
    - intros H. destruct (parse_amount_returns (Some s)) as [[v|] Hv]; [|exact Hv].
      exfalso. apply H. apply Hsome in Hv as (i & f & Hd & _). eauto. }
  split; [apply parse_amount_returns|].
  split.
  { intros He. apply Hnone. intros (i & f & Hi & Hf & Hne & [H|[H ->]]).
    - rewrite He in H. destruct i; discriminate H.
    - rewrite He in H. subst i. by apply Hne. }
  repeat split; try apply Hnone; try apply Hsome; reflexivity.
Qed.

(** ** The missing-field detector *)

Lemma truthy_false (v : option string) : truthy v = false <-> absent_or_empty v.
Proof.
  unfold absent_or_empty. destruct v as [[|c s]|]; simpl.
  - split; auto.
  - split; [discriminate|]. intros [H|H]; discriminate H.
  - split; auto.
Qed.

Lemma find_missing_fields_filter (fields : field_map) (names : list string) :
  List.filter (fun name => negb (truthy (get fields name))) names =
  filter (fun name => absent_or_empty (get fields name)) names.
Proof.
  induction names as [|n names IH]; [reflexivity|].
  rewrite filter_cons. simpl. rewrite IH.
  destruct (truthy (get fields n)) eqn:E; simpl.
  - rewrite decide_False; [reflexivity|].
    intros H%truthy_false. congruence.
  - rewrite decide_True; [reflexivity|]. by apply truthy_false.
Qed.

(** White space at both ends removed leaves nothing of a blank string. *)
Lemma strip_blank (s : string) :
  Str.forallb Char.is_space s = true -> Str.strip s = EmptyString.
Proof.
  unfold Str.strip. induction s as [|c s IH]; simpl; [reflexivity|].
  intros [Hc Hs]%andb_true_iff.
  specialize (IH Hs). destruct (Str.rstrip s) as [|c' r] eqn:E.
  - by rewrite Hc.
  - simpl. by rewrite Hc.
Qed.

Lemma rstrip_idempotent (s : string) : Str.rstrip (Str.rstrip s) = Str.rstrip s.
Proof.
  induction s as [|c s IH]; [reflexivity|]. cbn [Str.rstrip].
  destruct (Str.rstrip s) as [|c' r] eqn:E.
  - destruct (Char.is_space c) eqn:Hc; [reflexivity|]. cbn [Str.rstrip]. by rewrite Hc.
  - cbn [Str.rstrip] in *. by rewrite IH.
Qed.

Lemma lstrip_idempotent (s : string) : Str.lstrip (Str.lstrip s) = Str.lstrip s.
Proof.
  induction s as [|c s IH]; [reflexivity|]. cbn [Str.lstrip].
  destruct (Char.is_space c) eqn:Hc; [exact IH|]. cbn [Str.lstrip]. by rewrite Hc.
Qed.

(** Removing white space at the left leaves the right end as it was. *)
Lemma rstrip_lstrip (s : string) :
  Str.rstrip s = s -> Str.rstrip (Str.lstrip s) = Str.lstrip s.
Proof.
  induction s as [|c s IH]; [reflexivity|]. intros H. cbn [Str.lstrip].
  destruct (Char.is_space c) eqn:Hc; [|exact H]. apply IH.
  cbn [Str.rstrip] in H. destruct (Str.rstrip s) as [|c' r].
  - rewrite Hc in H. discriminate H.
  - by injection H.
Qed.

Lemma strip_idempotent (s : string) : Str.strip (Str.strip s) = Str.strip s.
Proof.
  unfold Str.strip.
  rewrite (rstrip_lstrip (Str.rstrip s)) by apply rstrip_idempotent.
  apply lstrip_idempotent.
Qed.

Lemma trimmed_insert (fields : field_map) (name : string) (v : option string) :
  trimmed fields -> (forall s, v = Some s -> Str.strip s = s) ->
  trimmed (<[name := v]> fields).
Proof.
  intros Hf Hv k s. unfold get.
  destruct (decide (name = k)) as [->|Hne].
  - rewrite lookup_insert_eq. simpl. apply Hv.
  - rewrite lookup_insert_ne by exact Hne. apply Hf.
Qed.

Lemma extract_loop_trimmed (text : string) (entries : list (string * Re.regex)) :
  forall fields fields' : field_map,
    extract_loop text entries fields = Ok fields' -> trimmed fields -> trimmed fields'.
Proof.
  induction entries as [|[field pattern] entries IH]; intros fields fields'.
  - by intros [= <-].
  - cbn [extract_loop]. unfold extract_entry.
    destruct (Re.search search_flags pattern text) as [m|].
    + destruct (Re.group m 1) as [g|e]; [|discriminate].
      change (Ok g ≫= ?k) with (k g). cbv beta zeta.
      change (mret ?f ≫= ?k) with (k f). cbv beta.
      intros H Hf. apply (IH _ _ H). apply trimmed_insert; [exact Hf|].
      intros s [= <-]. destruct (String.eqb field "Asset Type"); [reflexivity|].
      apply strip_idempotent.
    + change (mret ?f ≫= ?k) with (k f). cbv beta. apply IH.
Qed.

(** Every string the extractor stores is trimmed. *)
Lemma extract_fields_trimmed (text : string) (fields : field_map) :
  extract_fields text = Ok fields -> trimmed fields.
Proof.
  unfold extract_fields.
  destruct (extract_loop text FIELD_PATTERNS empty_fields) as [f|e] eqn:E; [|discriminate].
  change (Ok f ≫= ?k) with (k f). cbv beta zeta.
  assert (trimmed f) as Hf.
  { apply (extract_loop_trimmed _ _ _ _ E). intros name s. unfold get.
    destruct (decide (name ∈ MANDATORY_FIELDS)) as [Hin|Hn].
    - by rewrite (empty_fields_lookup name Hin).
    - assert (empty_fields !! name = None) as ->; [|discriminate].
      apply not_elem_of_dom. rewrite empty_fields_dom. by rewrite elem_of_list_to_set. }
  destruct (_ && _); intros [= <-]; [|exact Hf].
  apply trimmed_insert; [exact Hf|]. by intros s [= <-].
Qed.

(** The detector on any dictionary: it returns the mandatory names whose
    value is absent or the empty string, in the order of the Mandatory
    Field Set. *)
Lemma find_missing_fields_absent_or_empty (fields : field_map) :
  find_missing_fields fields =
    filter (fun name => absent_or_empty (get fields name)) MANDATORY_FIELDS
  /\ sublist (find_missing_fields fields) MANDATORY_FIELDS.
Proof.
  unfold find_missing_fields. rewrite find_missing_fields_filter.
  split; [reflexivity|apply sublist_filter].
Qed.

(** Among trimmed strings the blank ones are the empty one. *)
Lemma blank_is_empty_when_trimmed (fields : field_map) (name : string) :
  trimmed fields ->
  absent_or_blank (get fields name) <-> absent_or_empty (get fields name).
Proof.
  intros Htrim. unfold absent_or_empty.
  destruct (get fields name) as [s|] eqn:E; simpl.
  - split.
    + intros Hb. right. f_equal. rewrite <- (Htrim name s E). by apply strip_blank.
    + intros [[=]|[= ->]]. reflexivity.
  - split; auto.
Qed.

(** The strings of a Field Map are trimmed, and the statement below needs
    it: in a dictionary that is no Field Map, with a Location of one blank,
    the blank value is not reported. *)
Remark blank_value_is_not_missing :
  ~ trimmed blank_location_fields
  /\ absent_or_blank (get blank_location_fields "Location")
  /\ find_missing_fields blank_location_fields = [].
Proof.
  split; [|split; vm_compute; reflexivity].
  intros Htrim. specialize (Htrim "Location" " " eq_refl). vm_compute in Htrim.
  discriminate Htrim.
Qed.

(** C5.  For every Field Map, a map whose stored strings are trimmed, the
    missing-field detector returns exactly the mandatory fields whose stored
    value is absent or an empty or blank string, in the fixed order of the
    Mandatory Field Set: the result is a subsequence of the Mandatory Field
    Set that keeps its order.  Blank and empty are the same there.  The
    maps that [extract_fields] returns are such maps, so this is what the
    detector does on every map it is called with. *)
Theorem missing_fields_are_absent_or_blank (fields : field_map) :
  trimmed fields ->
  find_missing_fields fields =
    filter (fun name => absent_or_blank (get fields name)) MANDATORY_FIELDS
  /\ sublist (find_missing_fields fields) MANDATORY_FIELDS
  /\ (forall name, name ∈ find_missing_fields fields <->
                   name ∈ MANDATORY_FIELDS /\ absent_or_blank (get fields name))
  /\ (forall name, absent_or_blank (get fields name) <->
                   absent_or_empty (get fields name))
  /\ (forall text extracted,
        extract_fields text = Ok extracted ->
        trimmed extracted
        /\ find_missing_fields extracted =
             filter (fun name => absent_or_blank (get extracted name))
                    MANDATORY_FIELDS).
Proof.
  assert (forall f : field_map, trimmed f ->
            find_missing_fields f =
            filter (fun name => absent_or_blank (get f name)) MANDATORY_FIELDS)
    as Hblank.
  { intros f Hf. destruct (find_missing_fields_absent_or_empty f) as [-> _].
    apply list_filter_iff. intros name. symmetry.
    by apply blank_is_empty_when_trimmed. }
  intros Htrim. split; [by apply Hblank|].
  split; [apply find_missing_fields_absent_or_empty|].
  split; [|split].
  - intros name. rewrite (Hblank fields Htrim), list_elem_of_filter. tauto.
  - intros name. by apply blank_is_empty_when_trimmed.
  - intros text extracted He.
    pose proof (extract_fields_trimmed text extracted He) as Ht.
    split; [exact Ht|by apply Hblank].
Qed.

Lemma missing_fields_are_absent_or_blank_witness :
  find_missing_fields partly_filled_fields =
    filter (fun name => absent_or_blank (get partly_filled_fields name)) MANDATORY_FIELDS
  /\ sublist (find_missing_fields partly_filled_fields) MANDATORY_FIELDS
  /\ (forall name, name ∈ find_missing_fields partly_filled_fields <->
                   name ∈ MANDATORY_FIELDS
                   /\ absent_or_blank (get partly_filled_fields name))
  /\ (forall name, absent_or_blank (get partly_filled_fields name) <->
                   absent_or_empty (get partly_filled_fields name))
  /\ (forall text extracted,
        extract_fields text = Ok extracted ->
        trimmed extracted
        /\ find_missing_fields extracted =
             filter (fun name => absent_or_blank (get extracted name))
                    MANDATORY_FIELDS).
Proof.
  apply (missing_fields_are_absent_or_blank partly_filled_fields).
  unfold partly_filled_fields, injury_fields, flagged_injury_fields.
  repeat (apply trimmed_insert;
          [|intros s Hs; try discriminate Hs; injection Hs as <-;
            vm_compute; reflexivity]).
  intros name s Hs. unfold get in Hs. rewrite lookup_empty in Hs. discriminate Hs.
Defined.

(** ** The title phrase *)

Module TitleFacts.
Import Re.

(** A literal pattern under IGNORECASE matches at the start of [s] when
    [s] starts with the text of the pattern, up to the case of letters. *)
Lemma match_here_lit (p : string) :
  forall opened caps s,
    is_Some (match_here search_flags (lit p) opened caps s) <->
    exists mid rest, s = mid +:+ rest /\ Str.lower mid = Str.lower p.
Proof.
  induction p as [|a p IH]; intros opened caps s.
  - simpl. split; [|eauto]. intros _. exists EmptyString, s. auto.
  - change (match_here search_flags (lit (String a p)) opened caps s)
      with (once (atom_matches search_flags (Lit a))
                 (match_here search_flags (lit p) opened caps) s).
    destruct s as [|c s]; cbn [once atom_matches IGNORECASE search_flags].
    + split; [by intros [? [=]]|].
      intros ([|x mid] & rest & H1 & H2); discriminate.
    + unfold Str.lower in *.
      destruct (Ascii.eqb_spec (Char.lower c) (Char.lower a)) as [Hc|Hc].
      * rewrite IH. split.
        -- intros (mid & rest & -> & Hm). exists (String c mid), rest.
           cbn [Str.map]. by rewrite Hc, Hm.
        -- intros ([|x mid] & rest & H1 & H2); [discriminate|].
           cbn [Str.map] in H2. injection H1 as <- ->. injection H2 as _ H2. eauto.
      * split; [by intros [? [=]]|].
        intros ([|x mid] & rest & H1 & H2); [discriminate|].
        cbn [Str.map] in H2. injection H1 as <- ->. injection H2 as H2 _. congruence.
Qed.

Lemma search_spec (r : regex) (text : string) :
  is_Some (search search_flags r text) <->
  exists pre s, text = pre +:+ s /\ is_Some (match_here search_flags r s [] s).
Proof.
  induction text as [|c text IH].
  - simpl. destruct (match_here search_flags r EmptyString [] EmptyString)
      as [[rest caps]|] eqn:E.
    + split; [|eauto]. intros _. exists EmptyString, EmptyString. rewrite E. eauto.
    + split; [by intros [? [=]]|]. intros ([|x pre] & s & H & Hs); [|discriminate].
      simpl in H. subst s. rewrite E in Hs. by destruct Hs.
  - cbn [search].
    destruct (match_here search_flags r (String c text) [] (String c text))
      as [[rest caps]|] eqn:E.
    + split; [|eauto]. intros _. exists EmptyString, (String c text). rewrite E. eauto.
    + rewrite IH. split.
      * intros (pre & s & -> & Hs). exists (String c pre), s. auto.
      * intros ([|x pre] & s & H & Hs).
        -- simpl in H. subst s. rewrite E in Hs. by destruct Hs.
        -- simpl in H. injection H as <- ->. eauto.
Qed.

End TitleFacts.

(** The pattern of the Asset Type entry matches exactly the texts that
    contain the title phrase, whatever the case of its letters. *)
Lemma title_matches_spec (text : string) :
  title_matches text = true <-> contains_ci TITLE text.
Proof.
  unfold title_matches, contains_ci, title_pattern.
  rewrite bool_decide_eq_true, TitleFacts.search_spec. split.
  - intros (pre & s & -> & Hs).
    apply TitleFacts.match_here_lit in Hs as (mid & rest & -> & Hm). eauto.
  - intros (pre & mid & post & -> & Hm). exists pre, (mid +:+ post).
    split; [reflexivity|]. apply TitleFacts.match_here_lit. eauto.
Qed.

(** ** The pipeline *)

(** Whenever the pipeline returns, the two fields without an extraction
    rule are on the Missing List and the decision is Manual review. *)
Lemma process_text_returned (text : string) (out : AgentOutput) :
  process_text text = Ok out ->
  extract_fields text = Ok (extractedFields out)
  /\ missingFields out = find_missing_fields (extractedFields out)
  /\ "Initial Estimate" ∈ missingFields out
  /\ "Attachments" ∈ missingFields out
  /\ recommendedRoute out = "Manual review"
  /\ reasoning out = missing_reason (missingFields out).
Proof.
  unfold process_text.
  destruct (extract_fields text) as [fields|e] eqn:E; [|discriminate].
  change (Ok fields ≫= ?k) with (k fields). cbv beta zeta.
  destruct (extract_fields_returned _ _ E) as (_ & _ & _ & Hinit & Hatt).
  assert ("Initial Estimate" ∈ find_missing_fields fields) as H1.
  { apply list_elem_of_In, filter_In. unfold get. rewrite Hinit.
    split; [|reflexivity]. apply list_elem_of_In. unfold MANDATORY_FIELDS. set_solver. }
  assert ("Attachments" ∈ find_missing_fields fields) as H2.
  { apply list_elem_of_In, filter_In. unfold get. rewrite Hatt.
    split; [|reflexivity]. apply list_elem_of_In. unfold MANDATORY_FIELDS. set_solver. }
  rewrite routing_missing by (intros H; rewrite H in H1; by apply elem_of_nil in H1).
  intros [= <-]. simpl.
  split; [reflexivity|]. split; [reflexivity|]. split; [exact H1|].
  split; [exact H2|]. split; reflexivity.
Qed.

(** The routing engine never raises. *)
Lemma apply_routing_rules_returns (fields : field_map) (missing : list string) :
  exists r, apply_routing_rules fields missing = Ok r.
Proof.
  unfold apply_routing_rules.
  destruct (parse_amount_returns (get fields "Estimated Damage")) as [v ->].
  change (Ok v ≫= ?k) with (k v). cbv beta.
  destruct (negb (bool_decide (missing = []))); [eauto|].
  destruct (existsb _ suspicious_words); [eauto|].
  destruct (Str.contains "injury" _); [eauto|].
  destruct v as [v|]; [|eauto]. destruct (Float.ltb _ _); eauto.
Qed.

Lemma process_text_cases (text : string) :
  if title_matches text then process_text text = Raise IndexError
  else exists out, process_text text = Ok out.
Proof.
  destruct (extract_fields_cases text) as (f1 & _ & H). unfold process_text.
  rewrite H. destruct (title_matches text); [reflexivity|].
  destruct (title_in_upper text);
    change (Ok ?f ≫= ?k) with (k f); cbv beta zeta;
    match goal with
    | |- context [apply_routing_rules ?f ?m] =>
        destruct (apply_routing_rules_returns f m) as [[route reason] ->]
    end; simpl; eauto.
Qed.

(** ** The extractor and the pipeline on whole texts *)

(** C1 fails on the code.  [extract_fields] raises IndexError on a text
    that contains the title phrase, in whatever case: the pattern of the
    Asset Type entry has no group, and [match.group(1)] is evaluated before
    the value is replaced by "Automobile".  On every other text it returns,
    and it raises no other exception. *)
Theorem extract_fields_raises_on_title :
  extract_fields "AUTOMOBILE LOSS NOTICE" = Raise IndexError
  /\ (forall text, contains_ci TITLE text <-> extract_fields text = Raise IndexError)
  /\ (forall text, ~ contains_ci TITLE text <-> exists fields, extract_fields text = Ok fields)
  /\ (forall text e, extract_fields text = Raise e -> e = IndexError).
Proof.
  split; [vm_compute; reflexivity|].
  assert (forall text, contains_ci TITLE text <-> extract_fields text = Raise IndexError) as H.
  { intros text. rewrite <- title_matches_spec. split.
    - intros Ht. destruct (extract_fields_cases text) as (f & _ & ->). by rewrite Ht.
    - intros Hr. by apply extract_fields_raised in Hr as [_ Ht]. }
  split; [exact H|]. split.
  - intros text. rewrite H. split.
    + intros Hn. destruct (extract_fields text) as [f|e] eqn:E; [eauto|].
      destruct (extract_fields_raised _ _ E) as [-> _]. by destruct Hn.
    + intros [f ->]. discriminate.
  - intros text e He. by apply extract_fields_raised in He as [-> _].
Qed.

(** C4 fails on the code.  When the pattern of the table detects the title
    phrase, [extract_fields] raises IndexError and returns no Field Map at
    all.  Otherwise it returns a Field Map whose Asset Type is "Automobile"
    when the upper-cased text has the phrase (the fallback check, which a
    title written with a sharp s reaches) and absent when it has not. *)
Theorem asset_type_of_title :
  extract_fields titled_notice = Raise IndexError
  /\ (forall text, contains_ci TITLE text -> extract_fields text = Raise IndexError)
  /\ (forall text, ~ contains_ci TITLE text ->
        exists fields, extract_fields text = Ok fields
          /\ get fields "Asset Type" =
             if title_in_upper text then Some "Automobile" else None)
  /\ asset_type (extract_fields sharp_title) = Ok (Some "Automobile")
  /\ asset_type (extract_fields notice_lines) = Ok None.
Proof.
  split; [vm_compute; reflexivity|]. split; [|split; [|split]].
  - intros text Ht%title_matches_spec.
    destruct (extract_fields_cases text) as (f & _ & ->). by rewrite Ht.
  - intros text Hn. assert (title_matches text = false) as Ht.
    { apply not_true_is_false. by rewrite title_matches_spec. }
    destruct (extract_fields text) as [fields|e] eqn:E.
    + exists fields. split; [reflexivity|].
      destruct (extract_fields_returned _ _ E) as (_ & _ & Ha & _).
      unfold get. by rewrite Ha.
    + apply extract_fields_raised in E as [_ E]. congruence.
  - vm_compute. reflexivity.
  - vm_compute. reflexivity.
Qed.

(** C6 fails on the code.  Every Field Map that [extract_fields] returns
    has the eleven mandatory names as its keys, no more and no fewer, each
    with a value or [None]; the empty text gives the Field Map with every
    value absent.  But on a text with the title phrase the function raises
    IndexError instead of returning a Field Map. *)
Theorem key_set_of_returned_field_map :
  (forall text fields,
      extract_fields text = Ok fields ->
      dom fields = list_to_set MANDATORY_FIELDS
      /\ forall name, name ∈ MANDATORY_FIELDS -> is_Some (fields !! name))
  /\ extract_fields EmptyString = Ok empty_fields
  /\ values empty_fields = (fun name => (name, None)) <$> MANDATORY_FIELDS
  /\ extract_fields "Automobile Loss Notice" = Raise IndexError.
Proof.
  split; [|repeat split; vm_compute; reflexivity].
  intros text fields E.
  destruct (extract_fields_returned _ _ E) as (_ & Hdom & _). split; [exact Hdom|].
  intros name Hin. apply elem_of_dom. rewrite Hdom. by apply elem_of_list_to_set.
Qed.

(** C3 fails on the code.  On a text with the title phrase the pipeline
    raises IndexError, so that there is neither a Missing List nor a Routing
    Decision.  On every other text it returns, with "Initial Estimate" and
    "Attachments" on the Missing List and the decision Manual review. *)
Theorem pipeline_on_title :
  process_text "AUTOMOBILE LOSS NOTICE" = Raise IndexError
  /\ (forall text, contains_ci TITLE text -> process_text text = Raise IndexError)
  /\ (forall text, ~ contains_ci TITLE text ->
        exists out, process_text text = Ok out
          /\ "Initial Estimate" ∈ missingFields out
          /\ "Attachments" ∈ missingFields out
          /\ recommendedRoute out = "Manual review").
Proof.
  split; [vm_compute; reflexivity|]. split.
  - intros text Ht%title_matches_spec.
    pose proof (process_text_cases text) as H. by rewrite Ht in H.
  - intros text Hn. assert (title_matches text = false) as Ht.
    { apply not_true_is_false. by rewrite title_matches_spec. }
    pose proof (process_text_cases text) as H. rewrite Ht in H.
    destruct H as [out H]. exists out. split; [exact H|].
    destruct (process_text_returned _ _ H) as (_ & _ & H1 & H2 & H3 & _). auto.
Qed.

(** C2, as the claim has it, fails: the notice with all its labeled values,
    Claim Type "Comprehensive" and Estimated Damage "$10,000", is not
    fast-tracked.  Where every field with an extraction rule is found, the
    decision is Manual review, with "Initial Estimate" and "Attachments"
    reported missing; without a title the Asset Type is missing as well;
    under the title as printed the pipeline raises. *)
Lemma notice_is_not_fast_tracked :
  decision (process_text sharp_titled_notice) =
    Ok ("Manual review",
        "One or more mandatory fields are missing: Initial Estimate, Attachments")
  /\ decision (process_text notice_lines) =
    Ok ("Manual review",
        "One or more mandatory fields are missing: Asset Type, Initial Estimate, Attachments")
  /\ decision (process_text titled_notice) = Raise IndexError.
Proof. repeat split; vm_compute; reflexivity. Qed.

(** C2, amended.  Whenever the pipeline returns, "Initial Estimate" and
    "Attachments", for which the extractor has no rule, are on the Missing
    List, the decision is Manual review and the justification lists the
    Missing List.  So it is for the notice with all its labeled values,
    Claim Type "Comprehensive" and Estimated Damage "$10,000".  Fast-track,
    with a justification that shows the parsed value 10000.0 and the
    threshold 25,000, is what the routing engine returns for the extracted
    values once the fields without a value are supplied and the Missing List
    is empty. *)
Theorem notice_is_routed_to_manual_review :
  (forall text out,
      process_text text = Ok out ->
      "Initial Estimate" ∈ missingFields out
      /\ "Attachments" ∈ missingFields out
      /\ recommendedRoute out = "Manual review"
      /\ reasoning out =
         "One or more mandatory fields are missing: "
         +:+ Str.join ", " (missingFields out))
  /\ decision (process_text sharp_titled_notice) =
       Ok ("Manual review",
           "One or more mandatory fields are missing: Initial Estimate, Attachments")
  /\ decision (process_text notice_lines) =
       Ok ("Manual review",
           "One or more mandatory fields are missing: Asset Type, Initial Estimate, Attachments")
  /\ (fields ← extract_fields notice_lines; mret (values fields)) =
       Ok [ ("Policy Number", Some "PX-1234/7");
            ("Policyholder Name", Some "JOHN Q. PUBLIC");
            ("Date of Loss", Some "03/14/2024");
            ("Time of Loss", Some "10:30 AM");
            ("Location",
              Some (Str.join nl [ "12 Main Street, Springfield";
                                  "DESCRIPTION OF ACCIDENT";
                                  "Hail damaged the hood and the roof." ]));
            ("Description", Some "Hail damaged the hood and the roof.");
            ("Claim Type", Some "Comprehensive");
            ("Estimated Damage", Some "10,000");
            ("Asset Type", None);
            ("Initial Estimate", None);
            ("Attachments", None) ]
  /\ route_supplied (extract_fields notice_lines) =
       Ok ([], ("Fast-track", "Estimated damage (10000.0) is less than 25,000.")).
Proof.
  split.
  - intros text out H.
    destruct (process_text_returned _ _ H) as (_ & _ & H1 & H2 & H3 & H4). auto.
  - repeat split; vm_compute; reflexivity.
Qed.

(** * Further properties of the program *)

(** ** The routing engine: its labels and its last two rules *)

Lemma unsuspicious_existsb (fields : field_map) :
  unsuspicious fields ->
  existsb (fun word => Str.contains word (Str.lower (or_empty (get fields "Description"))))
          suspicious_words = false.
Proof.
  intros Hu. apply not_true_is_false. intros Hs.
  apply suspicious_existsb in Hs as (w & Hin & Hw). by apply (Hu w).
Qed.

Lemma no_injury_contains (fields : field_map) :
  no_injury fields ->
  Str.contains "injury" (Str.lower (or_empty (get fields "Claim Type"))) = false.
Proof.
  intros Hn. apply not_true_is_false. intros Hc. apply Hn.
  by apply contains_lower.
Qed.

(** What the chain returns once the first three rules have not fired. *)
Lemma routing_by_estimate (fields : field_map) :
  unsuspicious fields -> no_injury fields ->
  apply_routing_rules fields [] =
  (estimate_val ← parse_amount (get fields "Estimated Damage");
   match estimate_val with
   | Some v =>
       if Float.ltb v (Float.of_Z 25000) then
         Ok ("Fast-track",
             "Estimated damage (" +:+ Float.repr v +:+ ") is less than 25,000.")
       else
         Ok ("Standard Queue",
             "All mandatory fields present, no special conditions matched.")
   | None =>
       Ok ("Standard Queue",
           "All mandatory fields present, no special conditions matched.")
   end).
Proof.
  intros Hu Hn. unfold apply_routing_rules.
  destruct (parse_amount_returns (get fields "Estimated Damage")) as [v ->].
  change (Ok v ≫= ?k) with (k v). cbv beta.
  rewrite bool_decide_eq_true_2 by reflexivity. cbn [negb].
  rewrite (unsuspicious_existsb _ Hu), (no_injury_contains _ Hn). reflexivity.
Qed.

(** X1. The routing engine never raises, and the label it returns is one
    of the five routes, whatever the Field Map and the Missing List. *)
Theorem routing_label_is_a_route (fields : field_map) (missing : list string) :
  exists route reason,
    apply_routing_rules fields missing = Ok (route, reason) /\ route ∈ ROUTES.
Proof.
  unfold apply_routing_rules, ROUTES.
  destruct (parse_amount_returns (get fields "Estimated Damage")) as [v ->].
  change (Ok v ≫= ?k) with (k v). cbv beta.
  destruct (negb (bool_decide (missing = []))).
  { eexists _, _. split; [reflexivity|]. set_solver. }
  destruct (existsb _ suspicious_words).
  { eexists _, _. split; [reflexivity|]. set_solver. }
  destruct (Str.contains "injury" _).
  { eexists _, _. split; [reflexivity|]. set_solver. }
  destruct v as [v|]; [destruct (Float.ltb _ _)|];
    (eexists _, _; split; [reflexivity|set_solver]).
Qed.

(** X2. An Estimated Damage that is absent, or of which the digits and
    points make no decimal number, never fast-tracks: with an empty Missing
    List, an unsuspicious Description and no injury the route is Standard
    Queue. *)
Theorem unreadable_estimate_goes_to_standard_queue (fields : field_map) :
  unsuspicious fields -> no_injury fields ->
  (forall s, get fields "Estimated Damage" = Some s ->
             ~ exists i f, decimal_number (Str.filter kept s) i f) ->
  apply_routing_rules fields [] =
  Ok ("Standard Queue", "All mandatory fields present, no special conditions matched.").
Proof.
  intros Hu Hn He. rewrite (routing_by_estimate _ Hu Hn).
  destruct (get fields "Estimated Damage") as [s|] eqn:E; [|reflexivity].
  rewrite FloatFacts.parse_amount_some.
  destruct (Float.of_string (Str.filter kept s)) as [v|e] eqn:Ev; [|reflexivity].
  exfalso. apply (He s eq_refl).
  apply FloatFacts.of_string_ok in Ev as (i & f & Hd & _). eauto.
Qed.

(** Deciding the two conditions on a given Field Map. *)
Lemma unsuspicious_decide (fields : field_map) :
  existsb (fun word => Str.contains word (Str.lower (or_empty (get fields "Description"))))
          suspicious_words = false ->
  unsuspicious fields.
Proof.
  intros H word Hin Hc.
  assert (existsb (fun word => Str.contains word (Str.lower (or_empty (get fields "Description"))))
            suspicious_words = true) as H'; [|congruence].
  apply suspicious_existsb. eauto.
Qed.

Lemma no_injury_decide (fields : field_map) :
  Str.contains "injury" (Str.lower (or_empty (get fields "Claim Type"))) = false ->
  no_injury fields.
Proof.
  intros H Hc. apply (contains_lower "injury") in Hc; [congruence|reflexivity].
Qed.

Lemma no_decimal_number_decide (cleaned : string) :
  Float.of_string cleaned = Raise ValueError ->
  ~ exists i f, decimal_number cleaned i f.
Proof.
  intros H (i & f & Hd).
  assert (Float.of_string cleaned = Ok (decimal_float i f)) as H'
    by (apply FloatFacts.of_string_ok; eauto).
  congruence.
Qed.

Lemma unreadable_estimate_goes_to_standard_queue_witness :
  apply_routing_rules unreadable_estimate_fields [] =
  Ok ("Standard Queue", "All mandatory fields present, no special conditions matched.").
Proof.
  apply (unreadable_estimate_goes_to_standard_queue unreadable_estimate_fields).
  - apply unsuspicious_decide. vm_compute. reflexivity.
  - apply no_injury_decide. vm_compute. reflexivity.
  - intros s Hs. vm_compute in Hs. injection Hs as <-.
    apply no_decimal_number_decide. vm_compute. reflexivity.
Defined.

(** ** The amount parser: what it reads and what it returns *)

(** X3. The amount parser reads the digits and the points of its argument
    and nothing else: two strings with the same digits and points, in the
    same order, give the same result, whatever currency signs, separators,
    blanks, letters or minus signs stand between them. *)
Theorem parse_amount_reads_digits_and_points (s t : string) :
  Str.filter kept s = Str.filter kept t ->
  parse_amount (Some s) = parse_amount (Some t).
Proof.
  intros H. by rewrite !FloatFacts.parse_amount_some, H.
Qed.

Lemma parse_amount_reads_digits_and_points_witness :
  parse_amount (Some "-12,500.00 USD") = parse_amount (Some "$12500.00").
Proof.
  apply (parse_amount_reads_digits_and_points "-12,500.00 USD" "$12500.00").
  vm_compute. reflexivity.
Defined.

Module RoundingFacts.

Lemma shr_1_nonneg (mrs : shr_record) : (0 <= shr_m mrs -> 0 <= shr_m (shr_1 mrs))%Z.
Proof.
  destruct mrs as [m r s]. destruct m as [|[p|p|]|p]; simpl; lia.
Qed.

Lemma iter_pos_keeps {A : Type} (P : A -> Prop) (f : A -> A) :
  (forall x, P x -> P (f x)) -> forall n x, P x -> P (SpecFloat.iter_pos f n x).
Proof.
  intros Hf. induction n as [n IH|n IH|]; intros x Hx; simpl; auto.
Qed.

Lemma shr_nonneg (mrs : shr_record) (e n : Z) :
  (0 <= shr_m mrs -> 0 <= shr_m (fst (shr mrs e n)))%Z.
Proof.
  intros H. destruct n as [|p|p]; simpl; [exact H| |exact H].
  by apply (iter_pos_keeps (fun x => (0 <= shr_m x)%Z) shr_1 shr_1_nonneg).
Qed.

Lemma shr_fexp_nonneg (m e : Z) (l : location) :
  (0 <= m -> 0 <= shr_m (fst (shr_fexp Float.prec Float.emax m e l)))%Z.
Proof.
  intros H. unfold shr_fexp. apply shr_nonneg.
  destruct l as [|[]]; exact H.
Qed.

Lemma round_nearest_even_nonneg (m : Z) (l : location) :
  (0 <= m -> 0 <= round_nearest_even m l)%Z.
Proof.
  intros H. destruct l as [|[]]; simpl; try lia. destruct (Z.even m); lia.
Qed.

Lemma binary_round_aux_nonnegative (mx ex : Z) (lx : location) :
  (0 <= mx)%Z -> nonnegative (binary_round_aux Float.prec Float.emax false mx ex lx).
Proof.
  intros H. unfold binary_round_aux.
  pose proof (shr_fexp_nonneg mx ex lx H) as H1.
  destruct (shr_fexp Float.prec Float.emax mx ex lx) as [mrs' e'].
  pose proof (shr_fexp_nonneg _ e' loc_Exact
                (round_nearest_even_nonneg _ (loc_of_shr_record mrs') H1)) as H2.
  destruct (shr_fexp Float.prec Float.emax _ e' loc_Exact) as [mrs'' e''].
  simpl in H2. destruct (shr_m mrs'') as [|m|m]; simpl; [reflexivity| |lia].
  destruct (_ <=? _)%Z; reflexivity.
Qed.

Lemma of_decimal_nonnegative (n k : Z) : nonnegative (Float.of_decimal n k).
Proof.
  destruct n as [|p|p]; [reflexivity| |reflexivity].
  unfold Float.of_decimal, SFdiv, SFdiv_core_binary.
  set (m' := match _ with Z0 => _ | Zpos _ => _ | Zneg _ => _ end).
  destruct (Z.div_eucl m' _) as [q r] eqn:E.
  apply binary_round_aux_nonnegative.
  assert (q = (m' / Z.pos (Z.to_pos (10 ^ k)))%Z) as -> by (unfold Z.div; by rewrite E).
  apply Z.div_pos; [|lia]. subst m'.
  destruct (_ - _ - _)%Z; [lia| |lia]. rewrite Z.shiftl_mul_pow2 by lia. lia.
Qed.

End RoundingFacts.

(** X4. The amount parser never returns a negative number or a NaN: its
    result, when there is one, is zero, a positive float or plus infinity
    (a minus sign in the text is dropped with the other characters). *)
Theorem parse_amount_is_never_negative (amount_str : option string) :
  match parse_amount amount_str with
  | Ok (Some v) => nonnegative v
  | Ok None => True
  | Raise _ => False
  end.
Proof.
  destruct amount_str as [s|]; [|exact I].
  rewrite FloatFacts.parse_amount_some.
  destruct (Float.of_string (Str.filter kept s)) as [v|e] eqn:E; [|exact I].
  apply FloatFacts.of_string_ok in E as (i & f & _ & ->).
  apply RoundingFacts.of_decimal_nonnegative.
Qed.

(** ** The missing-field detector: keys and updates *)

Lemma get_insert (fields : field_map) (k name : string) (v : option string) :
  get (<[k := v]> fields) name = if decide (k = name) then v else get fields name.
Proof.
  unfold get. destruct (decide (k = name)) as [->|Hne].
  - by rewrite lookup_insert_eq.
  - by rewrite lookup_insert_ne.
Qed.

Lemma find_missing_fields_ext (f g : field_map) :
  (forall name, name ∈ MANDATORY_FIELDS -> get f name = get g name) ->
  find_missing_fields f = find_missing_fields g.
Proof.
  unfold find_missing_fields. generalize MANDATORY_FIELDS.
  induction l as [|n l IH]; intros H; [reflexivity|]. simpl.
  rewrite (H n) by set_solver. rewrite IH; [reflexivity|].
  intros name Hin. apply H. set_solver.
Qed.

(** X5. The detector reads the eleven mandatory keys and no other: a key
    that the dictionary does not have counts as one stored with [None], so
    that its field is reported missing, and a key outside the Mandatory
    Field Set changes nothing. *)
Theorem detector_reads_mandatory_keys (fields : field_map) (k : string) :
  find_missing_fields (delete k fields) = find_missing_fields (<[k := None]> fields)
  /\ (k ∈ MANDATORY_FIELDS -> k ∈ find_missing_fields (delete k fields))
  /\ (k ∉ MANDATORY_FIELDS ->
      forall v, find_missing_fields (<[k := v]> fields) = find_missing_fields fields)
  /\ find_missing_fields ∅ = MANDATORY_FIELDS.
Proof.
  split; [|split; [|split]].
  - apply find_missing_fields_ext. intros name _. rewrite get_insert. unfold get.
    destruct (decide (k = name)) as [->|Hne].
    + by rewrite lookup_delete_eq.
    + by rewrite lookup_delete_ne.
  - intros Hin. unfold find_missing_fields.
    apply list_elem_of_In, filter_In. split; [by apply list_elem_of_In|].
    unfold get. by rewrite lookup_delete_eq.
  - intros Hn v. apply find_missing_fields_ext. intros name Hin.
    rewrite get_insert. destruct (decide (k = name)) as [->|]; [done|reflexivity].
  - reflexivity.
Qed.

(** X6. Storing a non-empty string for a field takes that field, and no
    other, off the Missing List; the order of the others is kept. *)
Theorem filling_a_field_removes_it (fields : field_map) (k v : string) :
  v <> EmptyString ->
  find_missing_fields (<[k := Some v]> fields) =
  filter (fun name => name <> k) (find_missing_fields fields).
Proof.
  intros Hv. unfold find_missing_fields. rewrite !find_missing_fields_filter.
  rewrite list_filter_filter. apply list_filter_iff. intros name.
  rewrite get_insert. destruct (decide (k = name)) as [->|Hne].
  - split; [|tauto]. intros [[=]|[= ->]]. done.
  - split; [|tauto]. intros H. split; [congruence|exact H].
Qed.

Lemma filling_a_field_removes_it_witness :
  find_missing_fields (<["Location" := Some "12 Main Street"]> empty_fields) =
  filter (fun name => name <> "Location") (find_missing_fields empty_fields).
Proof.
  apply (filling_a_field_removes_it empty_fields "Location" "12 Main Street").
  discriminate.
Defined.

(** ** The detector and the routing engine together *)

Lemma find_missing_fields_nil (fields : field_map) :
  find_missing_fields fields = [] <->
  forall name, name ∈ MANDATORY_FIELDS -> ~ absent_or_empty (get fields name).
Proof.
  unfold find_missing_fields. rewrite find_missing_fields_filter. split.
  - intros H name Hin Ha.
    assert (name ∈ filter (fun name => absent_or_empty (get fields name)) MANDATORY_FIELDS)
      as H' by (apply list_elem_of_filter; auto).
    rewrite H in H'. by apply elem_of_nil in H'.
  - intros H. induction MANDATORY_FIELDS as [|n l IH]; [reflexivity|].
    rewrite filter_cons, decide_False by (apply H; set_solver).
    apply IH. intros name Hin. apply H. set_solver.
Qed.

Lemma routing_complete_is_not_manual (fields : field_map) (route reason : string) :
  apply_routing_rules fields [] = Ok (route, reason) -> route <> "Manual review".
Proof.
  unfold apply_routing_rules.
  destruct (parse_amount_returns (get fields "Estimated Damage")) as [v ->].
  change (Ok v ≫= ?k) with (k v). cbv beta.
  rewrite bool_decide_eq_true_2 by reflexivity. cbn [negb].
  destruct (existsb _ suspicious_words); [by intros [= <- _]|].
  destruct (Str.contains "injury" _); [by intros [= <- _]|].
  destruct v as [v|]; [destruct (Float.ltb _ _)|]; by intros [= <- _].
Qed.

(** X7. When the routing engine is given the Missing List of the Field Map
    itself, as the pipeline does, the route is Manual review exactly when
    some mandatory field is absent or empty: every other route stands for a
    Field Map in which all eleven fields hold a non-empty string. *)
Theorem manual_review_iff_a_field_is_missing (fields : field_map) :
  exists route reason,
    apply_routing_rules fields (find_missing_fields fields) = Ok (route, reason)
    /\ (route = "Manual review" <->
        exists name, name ∈ MANDATORY_FIELDS /\ absent_or_empty (get fields name)).
Proof.
  destruct (find_missing_fields fields) as [|n l] eqn:E.
  - destruct (apply_routing_rules_returns fields []) as [[route reason] H].
    exists route, reason. split; [exact H|]. split.
    + intros Hr. by apply routing_complete_is_not_manual in H.
    + intros (name & Hin & Ha). exfalso.
      destruct (find_missing_fields_nil fields) as [Hnil _].
      by apply (Hnil E name Hin).
  - exists "Manual review", (missing_reason (n :: l)).
    split; [by apply routing_missing|]. split; [|reflexivity]. intros _.
    assert (n ∈ find_missing_fields fields) as Hn by (rewrite E; set_solver).
    unfold find_missing_fields in Hn. rewrite find_missing_fields_filter in Hn.
    apply list_elem_of_filter in Hn as [Ha Hin]. eauto.
Qed.

(** ** The matcher against what a pattern matches *)

Module MatchFacts.
Import Re.

Lemma length_append (a b : string) :
  String.length (a +:+ b) = String.length a + String.length b.
Proof. induction a as [|x a IH]; simpl; [reflexivity|]. by rewrite IH. Qed.

Lemma take_all (s : string) : Str.take (String.length s) s = s.
Proof. induction s as [|x s IH]; simpl; [reflexivity|]. by rewrite IH. Qed.

Lemma take_append (a b : string) : Str.take (String.length a) (a +:+ b) = a.
Proof. induction a as [|x a IH]; simpl; [by destruct b|]. by rewrite IH. Qed.

Lemma forallb_append (p : ascii -> bool) (a b : string) :
  Str.forallb p (a +:+ b) = Str.forallb p a && Str.forallb p b.
Proof. induction a as [|x a IH]; simpl; [reflexivity|]. by rewrite IH, andb_assoc. Qed.

Lemma orelse_is_Some (a b : outcome) : is_Some (orelse a b) <-> is_Some a \/ is_Some b.
Proof.
  destruct a as [x|]; simpl.
  - split; eauto.
  - split; [auto|]. intros [[? [=]]|H]; exact H.
Qed.

Section Quantifiers.
Variable p : ascii -> bool.
Variable next : string -> outcome.

(** The choices of a quantifier: the matcher succeeds exactly when some
    number of repetitions lets the rest of the pattern succeed. *)
Lemma star_spec (s : string) :
  is_Some (star p next s) <->
  exists mid s', s = mid +:+ s' /\ Str.forallb p mid = true /\ is_Some (next s').
Proof.
  split.
  - induction s as [|c s IH]; simpl.
    + intros H. exists EmptyString, EmptyString. auto.
    + destruct (p c) eqn:Hc.
      * intros [H|H]%orelse_is_Some.
        -- destruct (IH H) as (mid & s' & -> & Hm & Hn).
           exists (String c mid), s'. simpl. rewrite Hc, Hm. auto.
        -- exists EmptyString, (String c s). auto.
      * intros H. exists EmptyString, (String c s). auto.
  - intros (mid & s' & -> & Hm & Hn). induction mid as [|c mid IH]; simpl.
    + destruct s' as [|c s']; simpl; [exact Hn|].
      destruct (p c); [|exact Hn]. apply orelse_is_Some. auto.
    + simpl in Hm. apply andb_true_iff in Hm as [Hc Hm]. rewrite Hc.
      apply orelse_is_Some. auto.
Qed.

Lemma lazy_star_spec (s : string) :
  is_Some (lazy_star p next s) <->
  exists mid s', s = mid +:+ s' /\ Str.forallb p mid = true /\ is_Some (next s').
Proof.
  split.
  - induction s as [|c s IH]; simpl.
    + intros [H|[? [=]]]%orelse_is_Some. exists EmptyString, EmptyString. auto.
    + intros [H|H]%orelse_is_Some.
      * exists EmptyString, (String c s). auto.
      * destruct (p c) eqn:Hc; [|by destruct H].
        destruct (IH H) as (mid & s' & -> & Hm & Hn).
        exists (String c mid), s'. simpl. rewrite Hc, Hm. auto.
  - intros (mid & s' & -> & Hm & Hn). induction mid as [|c mid IH]; simpl.
    + destruct s' as [|c s']; simpl; apply orelse_is_Some; auto.
    + simpl in Hm. apply andb_true_iff in Hm as [Hc Hm]. rewrite Hc.
      apply orelse_is_Some. auto.
Qed.

Lemma quantified_spec (q : quant) (s : string) :
  is_Some (match q with
           | Once => once p next
           | Opt => opt p next
           | Star => star p next
           | Plus => plus p next
           | LazyStar => lazy_star p next
           end s) <->
  exists mid s',
    s = mid +:+ s' /\ Str.forallb p mid = true
    /\ repetitions q (String.length mid) /\ is_Some (next s').
Proof.
  destruct q; simpl.
  - (* Once *)
    split.
    + destruct s as [|c s]; simpl; [by intros [? [=]]|].
      destruct (p c) eqn:Hc; [|by intros [? [=]]].
      intros H. exists (String c EmptyString), s. simpl. rewrite Hc. auto.
    + intros ([|c [|c' mid]] & s' & -> & Hm & Hr & Hn); simpl in Hr; try lia.
      simpl in *. apply andb_true_iff in Hm as [-> _]. exact Hn.
  - (* Opt *)
    split.
    + destruct s as [|c s]; simpl.
      * intros H. exists EmptyString, EmptyString. auto.
      * destruct (p c) eqn:Hc.
        -- intros [H|H]%orelse_is_Some.
           ++ exists (String c EmptyString), s. simpl. rewrite Hc. auto.
           ++ exists EmptyString, (String c s). auto.
        -- intros H. exists EmptyString, (String c s). auto.
    + intros ([|c [|c' mid]] & s' & -> & Hm & Hr & Hn); simpl in Hr; try lia.
      * destruct s' as [|c s']; simpl; [exact Hn|].
        destruct (p c); [|exact Hn]. apply orelse_is_Some. auto.
      * simpl in *. apply andb_true_iff in Hm as [-> _].
        apply orelse_is_Some. auto.
  - (* Star *)
    rewrite star_spec. split; intros (mid & s' & H1 & H2 & H3).
    + exists mid, s'. auto.
    + exists mid, s'. tauto.
  - (* Plus *)
    split.
    + destruct s as [|c s]; simpl; [by intros [? [=]]|].
      destruct (p c) eqn:Hc; [|by intros [? [=]]].
      intros (mid & s' & -> & Hm & Hn)%star_spec.
      exists (String c mid), s'. simpl. rewrite Hc, Hm. repeat split; [lia|exact Hn].
    + intros ([|c mid] & s' & -> & Hm & Hr & Hn); simpl in Hr; [lia|].
      simpl in *. apply andb_true_iff in Hm as [-> Hm].
      apply star_spec. eauto.
  - (* LazyStar *)
    rewrite lazy_star_spec. split; intros (mid & s' & H1 & H2 & H3).
    + exists mid, s'. auto.
    + exists mid, s'. tauto.
Qed.

(** The choice the matcher makes: the repetitions it has taken when it
    returns. *)
Lemma star_taken (s : string) (x : string * list string) :
  star p next s = Some x ->
  exists mid s', s = mid +:+ s' /\ Str.forallb p mid = true /\ next s' = Some x.
Proof.
  induction s as [|c s IH]; simpl.
  - intros H. exists EmptyString, EmptyString. auto.
  - destruct (p c) eqn:Hc.
    + destruct (star p next s) as [y|] eqn:E; simpl.
      * intros [= ->]. destruct (IH eq_refl) as (mid & s' & -> & Hm & Hn).
        exists (String c mid), s'. simpl. rewrite Hc, Hm. auto.
      * intros H. exists EmptyString, (String c s). auto.
    + intros H. exists EmptyString, (String c s). auto.
Qed.

Lemma lazy_star_taken (s : string) (x : string * list string) :
  lazy_star p next s = Some x ->
  exists mid s', s = mid +:+ s' /\ Str.forallb p mid = true /\ next s' = Some x.
Proof.
  induction s as [|c s IH]; simpl.
  - destruct (next EmptyString) eqn:E; simpl; [|discriminate].
    intros [= ->]. exists EmptyString, EmptyString. auto.
  - destruct (next (String c s)) eqn:E; simpl.
    + intros [= ->]. exists EmptyString, (String c s). auto.
    + destruct (p c) eqn:Hc; [|discriminate]. intros H.
      destruct (IH H) as (mid & s' & -> & Hm & Hn).
      exists (String c mid), s'. simpl. rewrite Hc, Hm. auto.
Qed.

Lemma quantified_taken (q : quant) (s : string) (x : string * list string) :
  match q with
  | Once => once p next
  | Opt => opt p next
  | Star => star p next
  | Plus => plus p next
  | LazyStar => lazy_star p next
  end s = Some x ->
  exists mid s',
    s = mid +:+ s' /\ Str.forallb p mid = true
    /\ repetitions q (String.length mid) /\ next s' = Some x.
Proof.
  destruct q; simpl.
  - destruct s as [|c s]; simpl; [discriminate|].
    destruct (p c) eqn:Hc; [|discriminate]. intros H.
    exists (String c EmptyString), s. simpl. rewrite Hc. auto.
  - destruct s as [|c s]; simpl.
    + intros H. exists EmptyString, EmptyString. auto.
    + destruct (p c) eqn:Hc.
      * destruct (next s) as [y|] eqn:E; simpl.
        -- intros [= ->]. exists (String c EmptyString), s. simpl. rewrite Hc. auto.
        -- intros H. exists EmptyString, (String c s). auto.
      * intros H. exists EmptyString, (String c s). auto.
  - intros (mid & s' & H1 & H2 & H3)%star_taken. exists mid, s'. auto.
  - destruct s as [|c s]; simpl; [discriminate|].
    destruct (p c) eqn:Hc; [|discriminate].
    intros (mid & s' & -> & Hm & Hn)%star_taken.
    exists (String c mid), s'. simpl. rewrite Hc, Hm. repeat split; [lia|exact Hn].
  - intros (mid & s' & H1 & H2 & H3)%lazy_star_taken. exists mid, s'. auto.
Qed.

(** A greedy repetition of an atom that matches every character runs to
    the end of the text when the rest of the pattern accepts the end. *)
Lemma star_everything (s : string) :
  (forall c, p c = true) -> is_Some (next EmptyString) ->
  star p next s = next EmptyString.
Proof.
  intros Hp Hn. induction s as [|c s IH]; simpl; [reflexivity|].
  rewrite Hp, IH. destruct Hn as [x ->]. reflexivity.
Qed.

End Quantifiers.

(** The matcher is sound and complete for [matches]. *)
Lemma match_here_spec (fl : flags) (r : regex) :
  forall opened caps s,
    is_Some (match_here fl r opened caps s) <-> exists rest, matches fl r s rest.
Proof.
  induction r as [|n r IH]; intros opened caps s.
  - simpl. split; eauto.
  - destruct n as [a q| |].
    + change (match_here fl (Atom a q :: r) opened caps s)
        with (match q with
              | Once => once (atom_matches fl a) (match_here fl r opened caps)
              | Opt => opt (atom_matches fl a) (match_here fl r opened caps)
              | Star => star (atom_matches fl a) (match_here fl r opened caps)
              | Plus => plus (atom_matches fl a) (match_here fl r opened caps)
              | LazyStar => lazy_star (atom_matches fl a) (match_here fl r opened caps)
              end s).
      rewrite quantified_spec. cbn [matches]. split.
      * intros (mid & s' & H1 & H2 & H3 & H4). apply IH in H4 as [rest H4].
        exists rest, mid, s'. auto.
      * intros (rest & mid & s' & H1 & H2 & H3 & H4).
        exists mid, s'. repeat split; try assumption. apply IH. eauto.
    + simpl. apply IH.
    + simpl. apply IH.
Qed.

Lemma matches_app (fl : flags) (a b : regex) :
  forall s rest,
    matches fl (a ++ b) s rest <-> exists mid, matches fl a s mid /\ matches fl b mid rest.
Proof.
  induction a as [|n a IH]; intros s rest.
  - simpl. split; [eauto|]. by intros (mid & -> & H).
  - destruct n as [x q| |]; cbn [app matches]; [|apply IH..]. split.
    + intros (m & s' & H1 & H2 & H3 & (mid & H4 & H5)%IH). exists mid. split; [|exact H5].
      exists m, s'. auto.
    + intros (mid & (m & s' & H1 & H2 & H3 & H4) & H5).
      exists m, s'. repeat split; try assumption. apply IH. eauto.
Qed.

(** A literal text, under IGNORECASE. *)
Lemma matches_lit (p s rest : string) :
  matches search_flags (lit p) s rest <->
  exists mid, s = mid +:+ rest /\ Str.lower mid = Str.lower p.
Proof.
  revert s. induction p as [|a p IH]; intros s.
  - simpl. split; [intros ->; by exists EmptyString|].
    by intros ([|c mid] & -> & H).
  - cbn [lit matches]. split.
    + intros (m & s' & -> & Hm & Hr & (mid & -> & Hl)%IH). simpl in Hr.
      destruct m as [|c [|c' m]]; simpl in Hr; try lia.
      simpl in Hm. rewrite andb_true_r in Hm. apply Ascii.eqb_eq in Hm.
      exists (String c mid). split; [reflexivity|].
      unfold Str.lower in *. cbn [Str.map]. by rewrite Hm, Hl.
    + intros ([|c mid] & -> & Hl); [discriminate|].
      unfold Str.lower in Hl. cbn [Str.map] in Hl. injection Hl as Hc Hl.
      exists (String c EmptyString), (mid +:+ rest). repeat split.
      * simpl. rewrite andb_true_r. by apply Ascii.eqb_eq.
      * apply IH. eauto.
Qed.

Lemma search_matches (r : regex) (text : string) :
  is_Some (search search_flags r text) <->
  exists pre s rest, text = pre +:+ s /\ matches search_flags r s rest.
Proof.
  rewrite TitleFacts.search_spec. split.
  - intros (pre & s & -> & [rest H]%match_here_spec). eauto.
  - intros (pre & s & rest & -> & H). exists pre, s. split; [reflexivity|].
    apply match_here_spec. eauto.
Qed.

End MatchFacts.

(** ** What the last group of a pattern captures *)

Module CaptureFacts.
Import Re.

(** The matcher reaches the tail of a pattern with the groups it had, when
    the part before the tail closes no group. *)
Lemma match_here_tail (fl : flags) (pre tail : regex) :
  group_count pre = 0 ->
  forall opened caps s x,
    match_here fl (pre ++ tail) opened caps s = Some x ->
    exists opened' before s',
      s = before +:+ s' /\ match_here fl tail opened' caps s' = Some x.
Proof.
  induction pre as [|n pre IH]; intros Hg opened caps s x H.
  - exists opened, EmptyString, s. auto.
  - destruct n as [a q| |]; simpl in Hg.
    + apply MatchFacts.quantified_taken in H as (mid & s1 & -> & _ & _ & H).
      destruct (IH Hg _ _ _ _ H) as (o' & before & s' & -> & H').
      exists o', (mid +:+ before), s'. by rewrite StrFacts.append_assoc.
    + simpl in H. exact (IH Hg _ _ _ _ H).
    + discriminate Hg.
Qed.

(** A last group [(a+)]: the group is not empty and holds characters that
    the atom matches. *)
Lemma last_group (fl : flags) (a : atom) (opened s rest : string)
    (caps caps' : list string) :
  match_here fl [GroupOpen; Atom a Plus; GroupClose] opened caps s = Some (rest, caps') ->
  exists g,
    s = g +:+ rest /\ caps' = caps ++ [g] /\ g <> EmptyString
    /\ Str.forallb (atom_matches fl a) g = true.
Proof.
  intros H.
  change (plus (atom_matches fl a) (match_here fl [GroupClose] s caps) s = Some (rest, caps'))
    in H.
  apply (MatchFacts.quantified_taken _ _ Plus) in H as (g & s' & -> & Hg & Hr & H).
  simpl in H. injection H as -> <-. exists g. repeat split; try assumption.
  - rewrite MatchFacts.length_append.
    replace (String.length g + String.length rest - String.length rest)
      with (String.length g) by lia.
    by rewrite MatchFacts.take_append.
  - intros ->. simpl in Hr. lia.
Qed.

(** A last group [(.+)] under DOTALL: the group is the whole rest of the
    text. *)
Lemma last_group_any (opened s rest : string) (caps caps' : list string) :
  match_here search_flags [GroupOpen; Atom Any Plus; GroupClose] opened caps s
    = Some (rest, caps') ->
  rest = EmptyString /\ caps' = caps ++ [s] /\ s <> EmptyString.
Proof.
  intros H.
  change (plus (atom_matches search_flags Any) (match_here search_flags [GroupClose] s caps) s
          = Some (rest, caps')) in H.
  destruct s as [|c s]; [discriminate H|]. cbn [plus] in H.
  change (atom_matches search_flags Any c) with true in H. cbv iota in H.
  rewrite MatchFacts.star_everything in H by (reflexivity || (simpl; eauto)).
  cbn [match_here] in H. injection H as <- <-.
  split; [reflexivity|]. split; [|discriminate]. do 2 f_equal.
  change (Str.take (String.length (String c s)) (String c s) = String c s).
  apply MatchFacts.take_all.
Qed.

Lemma search_inv (fl : flags) (r : regex) (text : string) (m : match_object) :
  search fl r text = Some m ->
  exists pre s rest,
    text = pre +:+ s /\ match_here fl r s [] s = Some (rest, groups m).
Proof.
  induction text as [|c text IH]; cbn [search].
  - destruct (match_here fl r EmptyString [] EmptyString) as [[rest caps]|] eqn:E;
      [|discriminate].
    intros [= <-]. exists EmptyString, EmptyString, rest. auto.
  - destruct (match_here fl r (String c text) [] (String c text)) as [[rest caps]|] eqn:E.
    + intros [= <-]. exists EmptyString, (String c text), rest. auto.
    + intros (pre & s & rest & -> & H)%IH. exists (String c pre), s, rest. auto.
Qed.

(** [m.group(1)] for a pattern that ends in a group [(a+)] and has no
    other group. *)
Lemma captured_class (fl : flags) (pre : regex) (a : atom) (text : string)
    (m : match_object) :
  group_count pre = 0 ->
  search fl (pre ++ [GroupOpen; Atom a Plus; GroupClose]) text = Some m ->
  exists g,
    group m 1 = Ok g /\ g <> EmptyString
    /\ Str.forallb (atom_matches fl a) g = true.
Proof.
  intros Hg (before & s & rest & -> & H)%search_inv.
  apply (match_here_tail _ _ _ Hg) in H as (o' & b & s' & -> & H).
  apply last_group in H as (g & -> & Hc & Hne & Hf).
  exists g. unfold group. rewrite Hc. auto.
Qed.

(** The same for a pattern that ends in a line break and [(.+)]: the group
    is all that follows the line break. *)
Lemma captured_rest (pre : regex) (text : string) (m : match_object) :
  group_count pre = 0 ->
  search search_flags
    (pre ++ [Atom (Lit Char.newline) Once; GroupOpen; Atom Any Plus; GroupClose]) text
    = Some m ->
  exists before g,
    group m 1 = Ok g /\ g <> EmptyString
    /\ text = before +:+ String Char.newline g.
Proof.
  intros Hg (before & s & rest & -> & H)%search_inv.
  apply (match_here_tail _ _ _ Hg) in H as (o' & b & s' & -> & H).
  change (once (atom_matches search_flags (Lit Char.newline))
            (match_here search_flags [GroupOpen; Atom Any Plus; GroupClose] o' [])
            s' = Some (rest, groups m)) in H.
  destruct s' as [|c g]; [discriminate H|]. cbn [once] in H.
  destruct (atom_matches search_flags (Lit Char.newline) c) eqn:Hc; [|discriminate H].
  apply last_group_any in H as (-> & Hgr & Hne).
  assert (c = Char.newline) as ->.
  { revert Hc. clear. destruct c as [[] [] [] [] [] [] [] []]; vm_compute; congruence. }
  exists (before +:+ b), g. unfold group. rewrite Hgr.
  repeat split; [exact Hne|]. by rewrite StrFacts.append_assoc.
Qed.

End CaptureFacts.

(** ** Where the stored values come from *)

Lemma get_empty_fields (name : string) : get empty_fields name = None.
Proof.
  unfold get. destruct (decide (name ∈ MANDATORY_FIELDS)) as [Hin|Hn].
  - by rewrite (empty_fields_lookup name Hin).
  - assert (empty_fields !! name = None) as ->; [|reflexivity].
    apply not_elem_of_dom. rewrite empty_fields_dom. by rewrite elem_of_list_to_set.
Qed.

Lemma get_Some (fields : field_map) (name v : string) :
  get fields name = Some v <-> fields !! name = Some (Some v).
Proof.
  unfold get. destruct (fields !! name) as [[w|]|]; simpl; split; congruence.
Qed.

(** What one turn of the loop returns. *)
Lemma extract_entry_inv (text : string) (fields fields' : field_map)
    (e : string * Re.regex) :
  extract_entry text fields e = Ok fields' ->
  (Re.search search_flags e.2 text = None /\ fields' = fields)
  \/ exists m g,
       Re.search search_flags e.2 text = Some m /\ Re.group m 1 = Ok g
       /\ fields' = <[e.1 := Some (if String.eqb e.1 "Asset Type"
                                   then "Automobile" else Str.strip g)]> fields.
Proof.
  destruct e as [field pattern]. unfold extract_entry. cbn [fst snd].
  destruct (Re.search search_flags pattern text) as [m|].
  - destruct (Re.group m 1) as [g|x] eqn:Hg; [|discriminate].
    change (Ok g ≫= ?k) with (k g). cbv beta zeta. intros [= <-].
    right. exists m, g. split; [reflexivity|]. split; [exact Hg|reflexivity].
  - intros [= <-]. left. split; reflexivity.
Qed.

Lemma extract_loop_cons (text : string) (e : string * Re.regex)
    (entries : list (string * Re.regex)) (fields fields' : field_map) :
  extract_loop text (e :: entries) fields = Ok fields' ->
  exists f1, extract_entry text fields e = Ok f1
             /\ extract_loop text entries f1 = Ok fields'.
Proof.
  cbn [extract_loop]. destruct (extract_entry text fields e) as [f1|x]; [|discriminate].
  intros H. exists f1. auto.
Qed.

(** A key that no entry names is left as it was. *)
Lemma extract_loop_other (text : string) (entries : list (string * Re.regex)) :
  forall (fields fields' : field_map) (k : string),
    extract_loop text entries fields = Ok fields' ->
    k ∉ map fst entries -> fields' !! k = fields !! k.
Proof.
  induction entries as [|e entries IH]; intros fields fields' k H Hk.
  - by injection H as <-.
  - apply extract_loop_cons in H as (f1 & H1 & H2).
    rewrite (IH _ _ _ H2) by set_solver.
    apply extract_entry_inv in H1 as [[_ ->]|(m & g & _ & _ & ->)]; [reflexivity|].
    apply lookup_insert_ne. set_solver.
Qed.

(** A string stored under a key was there before the loop or is the
    trimmed group of an entry of that name. *)
Lemma extract_loop_stored (text : string) (entries : list (string * Re.regex)) :
  forall (fields fields' : field_map) (k v : string),
    extract_loop text entries fields = Ok fields' ->
    fields' !! k = Some (Some v) ->
    fields !! k = Some (Some v)
    \/ exists e m g,
         e ∈ entries /\ e.1 = k /\ Re.search search_flags e.2 text = Some m
         /\ Re.group m 1 = Ok g
         /\ v = if String.eqb k "Asset Type" then "Automobile" else Str.strip g.
Proof.
  induction entries as [|e entries IH]; intros fields fields' k v H Hv.
  - injection H as <-. auto.
  - apply extract_loop_cons in H as (f1 & H1 & H2).
    destruct (IH _ _ _ _ H2 Hv) as [Hf1|(e' & m & g & Hin & He & Hs & Hg & Hval)].
    + apply extract_entry_inv in H1 as [[_ ->]|(m & g & Hs & Hg & ->)]; [auto|].
      destruct (decide (e.1 = k)) as [Hk|Hk].
      * right. exists e, m, g. rewrite Hk in Hf1. rewrite lookup_insert_eq in Hf1.
        injection Hf1 as <-. rewrite Hk. repeat split; try assumption. set_solver.
      * rewrite lookup_insert_ne in Hf1 by exact Hk. auto.
    + right. exists e', m, g. repeat split; try assumption. set_solver.
Qed.

(** A string that [extract_fields] returns under a key other than Asset
    Type is the trimmed group of one of the first eight entries. *)
Lemma extract_fields_stored (text : string) (fields : field_map) (k v : string) :
  extract_fields text = Ok fields -> k <> "Asset Type" ->
  get fields k = Some v ->
  exists e m g,
    e ∈ capturing_entries /\ e.1 = k /\ Re.search search_flags e.2 text = Some m
    /\ Re.group m 1 = Ok g /\ v = Str.strip g.
Proof.
  intros H Hk Hv. destruct (extract_fields_cases text) as (f1 & Hloop & Hcases).
  rewrite Hcases in H. destruct (title_matches text); [discriminate|].
  assert (f1 !! k = Some (Some v)) as Hf1.
  { apply get_Some. rewrite <- Hv.
    destruct (title_in_upper text); injection H as <-; [|reflexivity].
    unfold get. by rewrite lookup_insert_ne. }
  destruct (extract_loop_stored _ _ _ _ _ _ Hloop Hf1)
    as [He|(e & m & g & Hin & He & Hs & Hg & Hval)].
  - apply get_Some in He. rewrite get_empty_fields in He. discriminate.
  - exists e, m, g. repeat split; try assumption.
    rewrite Hval. apply String.eqb_neq in Hk. by rewrite Hk.
Qed.

(** The first eight entries, one by one. *)
Lemma capturing_entries_cases (e : string * Re.regex) :
  e ∈ capturing_entries ->
  exists i, i < 8 /\ FIELD_PATTERNS !! i = Some e.
Proof.
  intros Hin. apply list_elem_of_lookup in Hin as [i Hi].
  unfold capturing_entries in Hi. apply lookup_take_Some in Hi as [Hi Hlt]. eauto.
Qed.

(** ** The characters of the captured values *)

Module ClassFacts.
Import Re.

Ltac by_cases c := destruct c as [[] [] [] [] [] [] [] []]; vm_compute; reflexivity.

Lemma policy_class (c : ascii) :
  atom_matches search_flags (OneOf [Word; Chr "-"; Chr "/"]%char) c = policy_char c.
Proof. by_cases c. Qed.

Lemma date_class (c : ascii) :
  atom_matches search_flags (OneOf [Digit; Chr "/"; Chr "-"]%char) c = date_char c.
Proof. by_cases c. Qed.

Lemma amount_class (c : ascii) :
  atom_matches search_flags (OneOf [Digit; Chr ","; Chr "."]%char) c = amount_char c.
Proof. by_cases c. Qed.

Lemma time_class (c : ascii) :
  atom_matches search_flags
    (OneOf [Chr "A"; Chr "P"; Chr "M"; Range "0" "9"; Chr ":"; Chr " "]%char) c
  = time_char c.
Proof. by_cases c. Qed.

Lemma name_class (c : ascii) :
  atom_matches search_flags
    (OneOf [Range "A" "Z"; Range "0" "9"; Chr " "; Chr ","; Chr "."; Chr "'"; Chr "-"]%char) c
  = name_char c.
Proof. by_cases c. Qed.

Lemma policy_char_not_space (c : ascii) : policy_char c = true -> Char.is_space c = false.
Proof. destruct c as [[] [] [] [] [] [] [] []]; vm_compute; congruence. Qed.

Lemma date_char_not_space (c : ascii) : date_char c = true -> Char.is_space c = false.
Proof. destruct c as [[] [] [] [] [] [] [] []]; vm_compute; congruence. Qed.

Lemma amount_char_not_space (c : ascii) : amount_char c = true -> Char.is_space c = false.
Proof. destruct c as [[] [] [] [] [] [] [] []]; vm_compute; congruence. Qed.

Lemma forallb_ext (p q : ascii -> bool) (s : string) :
  (forall c, p c = q c) -> Str.forallb p s = Str.forallb q s.
Proof. intros H. induction s as [|c s IH]; simpl; [reflexivity|]. by rewrite H, IH. Qed.

Lemma forallb_impl (p q : ascii -> bool) (s : string) :
  (forall c, p c = true -> q c = true) ->
  Str.forallb p s = true -> Str.forallb q s = true.
Proof.
  intros H. induction s as [|c s IH]; simpl; [reflexivity|].
  intros [Hc Hs]%andb_true_iff. rewrite (H c Hc). simpl. auto.
Qed.

Lemma forallb_lstrip (p : ascii -> bool) (s : string) :
  Str.forallb p s = true -> Str.forallb p (Str.lstrip s) = true.
Proof.
  induction s as [|c s IH]; simpl; [reflexivity|].
  intros H. destruct (Char.is_space c); [|exact H].
  apply andb_true_iff in H as [_ H]. auto.
Qed.

Lemma forallb_rstrip (p : ascii -> bool) (s : string) :
  Str.forallb p s = true -> Str.forallb p (Str.rstrip s) = true.
Proof.
  induction s as [|c s IH]; simpl; [reflexivity|].
  intros [Hc Hs]%andb_true_iff. specialize (IH Hs).
  destruct (Str.rstrip s) as [|d r].
  - destruct (Char.is_space c); simpl; [reflexivity|]. by rewrite Hc.
  - change (p c && Str.forallb p (String d r) = true). by rewrite Hc, IH.
Qed.

Lemma forallb_strip (p : ascii -> bool) (s : string) :
  Str.forallb p s = true -> Str.forallb p (Str.strip s) = true.
Proof. intros H. unfold Str.strip. by apply forallb_lstrip, forallb_rstrip. Qed.

(** A string without white space is its own trimmed form. *)
Lemma strip_no_space (s : string) :
  Str.forallb (fun c => negb (Char.is_space c)) s = true -> Str.strip s = s.
Proof.
  intros H. unfold Str.strip.
  assert (Str.rstrip s = s) as ->.
  { induction s as [|c s IH]; [reflexivity|]. simpl in H.
    apply andb_true_iff in H as [Hc Hs]. cbn [Str.rstrip]. rewrite (IH Hs).
    destruct s; [|reflexivity]. apply negb_true_iff in Hc. by rewrite Hc. }
  destruct s as [|c s]; [reflexivity|]. simpl in H.
  apply andb_true_iff in H as [Hc _]. apply negb_true_iff in Hc.
  cbn [Str.lstrip]. by rewrite Hc.
Qed.

(** The entry of a name in the table. *)
Ltac entry_cases Hin He :=
  let i := fresh "i" in let Hlt := fresh "Hlt" in let Hi := fresh "Hi" in
  apply capturing_entries_cases in Hin as (i & Hlt & Hi);
  destruct i as [|[|[|[|[|[|[|[|i]]]]]]]];
  [ vm_compute in Hi; injection Hi as <-; cbn [fst] in He; try discriminate He ..
  | lia ].

(** The value of a field whose pattern ends in the group of a character
    set: the trimmed form of a non-empty string of characters of the set. *)
Lemma stored_class (text : string) (fields : field_map) (name v : string)
    (pre : regex) (a : atom) (p : ascii -> bool) :
  extract_fields text = Ok fields -> name <> "Asset Type" ->
  (forall e : string * regex, e ∈ capturing_entries -> e.1 = name ->
             e.2 = pre ++ [GroupOpen; Atom a Plus; GroupClose]) ->
  group_count pre = 0 ->
  (forall c, atom_matches search_flags a c = p c) ->
  get fields name = Some v ->
  exists g, v = Str.strip g /\ g <> EmptyString /\ Str.forallb p g = true.
Proof.
  intros H Hname Hentry Hpre Hp Hv.
  destruct (extract_fields_stored _ _ _ _ H Hname Hv)
    as (e & m & g & Hin & He & Hs & Hg & ->).
  rewrite (Hentry e Hin He) in Hs.
  destruct (CaptureFacts.captured_class _ _ _ _ _ Hpre Hs) as (g' & Hg' & Hne & Hall).
  rewrite Hg in Hg'. injection Hg' as <-.
  exists g. split; [reflexivity|]. split; [exact Hne|].
  by rewrite <- (forallb_ext _ _ _ Hp).
Qed.

Lemma stored_policy_number (text : string) (fields : field_map) (v : string) :
  extract_fields text = Ok fields -> get fields "Policy Number" = Some v ->
  exists g, v = Str.strip g /\ g <> EmptyString /\ Str.forallb policy_char g = true.
Proof.
  intros H. apply (stored_class text fields "Policy Number" v
    (lit "POLICY NUMBER" ++ [Atom (OneOf [Space]) Star])
    (OneOf [Word; Chr "-"; Chr "/"]%char)); try done.
  - intros e Hin He. entry_cases Hin He. reflexivity.
  - apply policy_class.
Qed.

Lemma stored_date_of_loss (text : string) (fields : field_map) (v : string) :
  extract_fields text = Ok fields -> get fields "Date of Loss" = Some v ->
  exists g, v = Str.strip g /\ g <> EmptyString /\ Str.forallb date_char g = true.
Proof.
  intros H. apply (stored_class text fields "Date of Loss" v
    (lit "DATE OF LOSS AND TIME" ++ [Atom (OneOf [Space]) Star])
    (OneOf [Digit; Chr "/"; Chr "-"]%char)); try done.
  - intros e Hin He. entry_cases Hin He. reflexivity.
  - apply date_class.
Qed.

Lemma stored_estimated_damage (text : string) (fields : field_map) (v : string) :
  extract_fields text = Ok fields -> get fields "Estimated Damage" = Some v ->
  exists g, v = Str.strip g /\ g <> EmptyString /\ Str.forallb amount_char g = true.
Proof.
  intros H. apply (stored_class text fields "Estimated Damage" v
    (lit "ESTIMATE AMOUNT" ++ [Atom (OneOf [Chr ":"; Chr " "]%char) Star]
       ++ [Atom (Lit "$"%char) Opt])
    (OneOf [Digit; Chr ","; Chr "."]%char)); try done.
  - intros e Hin He. entry_cases Hin He. reflexivity.
  - apply amount_class.
Qed.

Lemma stored_time_of_loss (text : string) (fields : field_map) (v : string) :
  extract_fields text = Ok fields -> get fields "Time of Loss" = Some v ->
  exists g, v = Str.strip g /\ g <> EmptyString /\ Str.forallb time_char g = true.
Proof.
  intros H. apply (stored_class text fields "Time of Loss" v
    (lit "DATE OF LOSS AND TIME" ++ [Atom (OneOf [Space]) Star]
       ++ [Atom (OneOf [Digit; Chr "/"; Chr "-"]%char) Plus; Atom (OneOf [Space]) Star])
    (OneOf [Chr "A"; Chr "P"; Chr "M"; Range "0" "9"; Chr ":"; Chr " "]%char)); try done.
  - intros e Hin He. entry_cases Hin He. reflexivity.
  - apply time_class.
Qed.

Lemma stored_policyholder_name (text : string) (fields : field_map) (v : string) :
  extract_fields text = Ok fields -> get fields "Policyholder Name" = Some v ->
  exists g, v = Str.strip g /\ g <> EmptyString /\ Str.forallb name_char g = true.
Proof.
  intros H. apply (stored_class text fields "Policyholder Name" v
    (lit "NAME OF INSURED" ++ [Atom Any LazyStar; Atom (Lit Char.newline) Once])
    (OneOf [Range "A" "Z"; Range "0" "9"; Chr " "; Chr ","; Chr "."; Chr "'"; Chr "-"]%char));
    try done.
  - intros e Hin He. entry_cases Hin He. reflexivity.
  - apply name_class.
Qed.

Lemma stored_claim_type (text : string) (fields : field_map) (v : string) :
  extract_fields text = Ok fields -> get fields "Claim Type" = Some v ->
  exists g, v = Str.strip g /\ g <> EmptyString /\ Str.forallb name_char g = true.
Proof.
  intros H. apply (stored_class text fields "Claim Type" v
    (lit "LINE OF BUSINESS" ++ [Atom (OneOf [Space]) Star])
    (OneOf [Range "A" "Z"; Range "0" "9"; Chr " "; Chr ","; Chr "."; Chr "'"; Chr "-"]%char));
    try done.
  - intros e Hin He. entry_cases Hin He. reflexivity.
  - apply name_class.
Qed.

End ClassFacts.

(** ** What the extractor returns *)

Lemma no_title_decide (text : string) :
  title_matches text = false -> ~ contains_ci TITLE text.
Proof. intros H Hc. apply title_matches_spec in Hc. congruence. Qed.

Lemma returns_without_title (text : string) :
  ~ contains_ci TITLE text -> exists fields, extract_fields text = Ok fields.
Proof.
  intros Hno. destruct (extract_fields_cases text) as (f1 & _ & ->).
  destruct (title_matches text) eqn:E.
  - destruct Hno. by apply title_matches_spec.
  - destruct (title_in_upper text); eauto.
Qed.

(** X8. On a text without the title phrase the extractor returns a Field
    Map in which the value of Policy Number, Policyholder Name, Date of
    Loss, Time of Loss, Claim Type and Estimated Damage, when there is one,
    has only characters of the set of its pattern; as the patterns are
    matched with IGNORECASE, the sets [A-Z...] and [APM...] have the small
    letters too. *)
Theorem extracted_values_are_of_their_class (text : string) :
  ~ contains_ci TITLE text ->
  exists fields,
    extract_fields text = Ok fields
    /\ forall name p v,
         (name, p) ∈ VALUE_CHARS -> get fields name = Some v ->
         Str.forallb p v = true.
Proof.
  intros Hno. destruct (returns_without_title text Hno) as [fields H].
  exists fields. split; [exact H|]. intros name p v Hin Hv.
  unfold VALUE_CHARS in Hin.
  repeat (apply elem_of_cons in Hin as [[= -> ->]|Hin]);
    [ destruct (ClassFacts.stored_policy_number _ _ _ H Hv) as (g & -> & _ & Hg)
    | destruct (ClassFacts.stored_policyholder_name _ _ _ H Hv) as (g & -> & _ & Hg)
    | destruct (ClassFacts.stored_date_of_loss _ _ _ H Hv) as (g & -> & _ & Hg)
    | destruct (ClassFacts.stored_time_of_loss _ _ _ H Hv) as (g & -> & _ & Hg)
    | destruct (ClassFacts.stored_claim_type _ _ _ H Hv) as (g & -> & _ & Hg)
    | destruct (ClassFacts.stored_estimated_damage _ _ _ H Hv) as (g & -> & _ & Hg)
    | by apply elem_of_nil in Hin ];
    by apply ClassFacts.forallb_strip.
Qed.

Lemma extracted_values_are_of_their_class_witness :
  exists fields,
    extract_fields notice_lines = Ok fields
    /\ forall name p v,
         (name, p) ∈ VALUE_CHARS -> get fields name = Some v ->
         Str.forallb p v = true.
Proof.
  apply (extracted_values_are_of_their_class notice_lines).
  apply no_title_decide. vm_compute. reflexivity.
Defined.

(** X9. A Policy Number, a Date of Loss or an Estimated Damage that the
    extractor stores is never the empty string: the characters of their
    groups are no white space, so trimming removes nothing and the value is
    the captured group itself.  A Claim Type can be stored as the empty
    string: after its label and one blank the group captures the blank. *)
Theorem solid_values_are_not_empty (text : string) :
  ~ contains_ci TITLE text ->
  (exists fields,
     extract_fields text = Ok fields
     /\ forall name, name ∈ SOLID_FIELDS ->
          get fields name <> Some EmptyString
          /\ (name ∈ find_missing_fields fields <-> get fields name = None))
  /\ stored "Claim Type" (extract_fields "LINE OF BUSINESS ") = Ok (Some EmptyString).
Proof.
  intros Hno. split; [|vm_compute; reflexivity].
  destruct (returns_without_title text Hno) as [fields H].
  exists fields. split; [exact H|]. intros name Hin.
  assert (forall v, get fields name = Some v -> v <> EmptyString) as Hne.
  { intros v Hv. unfold SOLID_FIELDS in Hin.
    repeat (apply elem_of_cons in Hin as [->|Hin]);
      [ destruct (ClassFacts.stored_policy_number _ _ _ H Hv) as (g & -> & Hg & Hall);
        apply (ClassFacts.forallb_impl _ (fun c => negb (Char.is_space c))) in Hall;
        [|intros c Hc; by rewrite (ClassFacts.policy_char_not_space c Hc)]
      | destruct (ClassFacts.stored_date_of_loss _ _ _ H Hv) as (g & -> & Hg & Hall);
        apply (ClassFacts.forallb_impl _ (fun c => negb (Char.is_space c))) in Hall;
        [|intros c Hc; by rewrite (ClassFacts.date_char_not_space c Hc)]
      | destruct (ClassFacts.stored_estimated_damage _ _ _ H Hv) as (g & -> & Hg & Hall);
        apply (ClassFacts.forallb_impl _ (fun c => negb (Char.is_space c))) in Hall;
        [|intros c Hc; by rewrite (ClassFacts.amount_char_not_space c Hc)]
      | by apply elem_of_nil in Hin ];
      by rewrite (ClassFacts.strip_no_space g Hall). }
  split.
  - intros Hv. by apply (Hne _ Hv).
  - unfold find_missing_fields. rewrite find_missing_fields_filter, list_elem_of_filter.
    unfold absent_or_empty. split.
    + intros [[Hv|Hv] _]; [exact Hv|]. by destruct (Hne _ Hv).
    + intros Hv. split; [by left|].
      unfold SOLID_FIELDS in Hin. unfold MANDATORY_FIELDS. set_solver.
Qed.

Lemma solid_values_are_not_empty_witness :
  (exists fields,
     extract_fields notice_lines = Ok fields
     /\ forall name, name ∈ SOLID_FIELDS ->
          get fields name <> Some EmptyString
          /\ (name ∈ find_missing_fields fields <-> get fields name = None))
  /\ stored "Claim Type" (extract_fields "LINE OF BUSINESS ") = Ok (Some EmptyString).
Proof.
  apply (solid_values_are_not_empty notice_lines).
  apply no_title_decide. vm_compute. reflexivity.
Defined.

(** ** The fields that capture the rest of the text *)

Lemma stored_rest (text : string) (fields : field_map) (name v : string)
    (pre : Re.regex) :
  extract_fields text = Ok fields -> name <> "Asset Type" ->
  (forall e : string * Re.regex, e ∈ capturing_entries -> e.1 = name ->
     e.2 = pre ++ [Re.Atom (Re.Lit Char.newline) Re.Once; Re.GroupOpen;
                   Re.Atom Re.Any Re.Plus; Re.GroupClose]) ->
  Re.group_count pre = 0 ->
  get fields name = Some v ->
  exists before rest,
    text = before +:+ nl +:+ rest /\ rest <> EmptyString /\ v = Str.strip rest.
Proof.
  intros H Hname Hentry Hpre Hv.
  destruct (extract_fields_stored _ _ _ _ H Hname Hv)
    as (e & m & g & Hin & He & Hs & Hg & ->).
  rewrite (Hentry e Hin He) in Hs.
  destruct (CaptureFacts.captured_rest _ _ _ Hpre Hs) as (before & g' & Hg' & Hne & Ht).
  rewrite Hg in Hg'. injection Hg' as <-.
  exists before, g. split; [exact Ht|]. split; [exact Hne|reflexivity].
Qed.

(** X10. A Location or a Description that the extractor stores is the
    trimmed form of everything that follows some line break of the text, up
    to the end of the text: with DOTALL the group (.+) does not stop at the
    end of the line. *)
Theorem rest_fields_run_to_the_end_of_the_text (text : string) :
  ~ contains_ci TITLE text ->
  exists fields,
    extract_fields text = Ok fields
    /\ forall name v,
         name ∈ REST_FIELDS -> get fields name = Some v ->
         exists before rest,
           text = before +:+ nl +:+ rest /\ rest <> EmptyString
           /\ v = Str.strip rest.
Proof.
  intros Hno. destruct (returns_without_title text Hno) as [fields H].
  exists fields. split; [exact H|]. intros name v Hin Hv.
  unfold REST_FIELDS in Hin.
  repeat (apply elem_of_cons in Hin as [->|Hin]); [| |by apply elem_of_nil in Hin].
  - apply (stored_rest text fields "Location" v
      (Re.lit "LOCATION OF LOSS" ++ [Re.Atom (Re.OneOf [Re.Space]) Re.Star])); try done.
    intros e Hin He. ClassFacts.entry_cases Hin He. reflexivity.
  - apply (stored_rest text fields "Description" v
      (Re.lit "DESCRIPTION OF ACCIDENT" ++ [Re.Atom Re.Any Re.LazyStar])); try done.
    intros e Hin He. ClassFacts.entry_cases Hin He. reflexivity.
Qed.

Lemma rest_fields_run_to_the_end_of_the_text_witness :
  exists fields,
    extract_fields notice_lines = Ok fields
    /\ forall name v,
         name ∈ REST_FIELDS -> get fields name = Some v ->
         exists before rest,
           notice_lines = before +:+ nl +:+ rest /\ rest <> EmptyString
           /\ v = Str.strip rest.
Proof.
  apply (rest_fields_run_to_the_end_of_the_text notice_lines).
  apply no_title_decide. vm_compute. reflexivity.
Defined.

(** ** Labels *)

(** A pattern that starts with a literal label matches only in a text that
    has the label, in any case of its letters. *)
Lemma label_needed (label : string) (tail : Re.regex) (text : string) :
  is_Some (Re.search search_flags (Re.lit label ++ tail) text) ->
  contains_ci label text.
Proof.
  intros Hs. apply MatchFacts.search_matches in Hs as (pre & s & rest & -> & Hm).
  apply MatchFacts.matches_app in Hm as (mid & Hl & _).
  apply MatchFacts.matches_lit in Hl as (lab & -> & Hlab).
  exists pre, lab, mid. split; [reflexivity|exact Hlab].
Qed.

Lemma label_of_entry (name label : string) (e : string * Re.regex) :
  (name, label) ∈ LABELS -> e ∈ capturing_entries -> e.1 = name ->
  exists tail, e.2 = Re.lit label ++ tail.
Proof.
  intros Hl Hin He. unfold LABELS in Hl.
  repeat (apply elem_of_cons in Hl as [[= -> ->]|Hl]); [..|by apply elem_of_nil in Hl];
    ClassFacts.entry_cases Hin He; eexists; reflexivity.
Qed.

Lemma label_is_not_asset_type (name label : string) :
  (name, label) ∈ LABELS -> name <> "Asset Type".
Proof.
  intros Hl. unfold LABELS in Hl.
  repeat (apply elem_of_cons in Hl as [[= -> ->]|Hl]); [..|by apply elem_of_nil in Hl];
    discriminate.
Qed.

Lemma label_is_mandatory (name label : string) :
  (name, label) ∈ LABELS -> name ∈ MANDATORY_FIELDS.
Proof.
  intros Hl. unfold LABELS in Hl. unfold MANDATORY_FIELDS.
  repeat (apply elem_of_cons in Hl as [[= -> ->]|Hl]); [..|by apply elem_of_nil in Hl];
    set_solver.
Qed.

Lemma contains_ci_decide (w s : string) :
  Str.lower (Str.lower w) = Str.lower w ->
  Str.contains (Str.lower w) (Str.lower s) = false -> ~ contains_ci w s.
Proof.
  intros Hl H (pre & mid & post & -> & Hm).
  assert (contains_ci (Str.lower w) (pre +:+ mid +:+ post)) as Hc.
  { exists pre, mid, post. split; [reflexivity|]. by rewrite Hl. }
  apply (contains_lower (Str.lower w)) in Hc; [congruence|exact Hl].
Qed.

(** X11. A field whose label does not occur in the text, in any case of
    its letters, is absent from the Field Map the extractor returns, and is
    reported missing. *)
Theorem field_without_label_is_absent (text name label : string) :
  (name, label) ∈ LABELS ->
  ~ contains_ci label text ->
  ~ contains_ci TITLE text ->
  exists fields,
    extract_fields text = Ok fields
    /\ get fields name = None
    /\ name ∈ find_missing_fields fields.
Proof.
  intros Hl Hlabel Hno. destruct (returns_without_title text Hno) as [fields H].
  exists fields. split; [exact H|].
  assert (get fields name = None) as Hnone.
  { destruct (get fields name) as [v|] eqn:Hv; [|reflexivity].
    destruct (extract_fields_stored _ _ _ _ H (label_is_not_asset_type _ _ Hl) Hv)
      as (e & m & g & Hin & He & Hs & _).
    destruct (label_of_entry _ _ _ Hl Hin He) as [tail Htail].
    rewrite Htail in Hs. destruct Hlabel. apply (label_needed label tail). eauto. }
  split; [exact Hnone|].
  unfold find_missing_fields. rewrite find_missing_fields_filter, list_elem_of_filter.
  split; [by left|]. by apply (label_is_mandatory name label).
Qed.

Lemma field_without_label_is_absent_witness :
  exists fields,
    extract_fields "POLICY NUMBER PX-1" = Ok fields
    /\ get fields "Location" = None
    /\ "Location" ∈ find_missing_fields fields.
Proof.
  apply (field_without_label_is_absent "POLICY NUMBER PX-1" "Location" "LOCATION OF LOSS").
  - unfold LABELS. do 4 apply list_elem_of_further. apply list_elem_of_here.
  - apply contains_ci_decide; vm_compute; reflexivity.
  - apply no_title_decide. vm_compute. reflexivity.
Defined.

(** ** The entries of the table are independent *)

Lemma entry_name_in (name : string) (pattern : Re.regex)
    (entries : list (string * Re.regex)) :
  (name, pattern) ∈ entries -> name ∈ map fst entries.
Proof.
  intros Hin. apply list_elem_of_In, in_map_iff. exists (name, pattern).
  split; [reflexivity|]. by apply list_elem_of_In.
Qed.

(** After the loop, the key of an entry holds what the entry gives, or what
    it held before when the pattern of the entry does not match. *)
Lemma extract_loop_get (text : string) (entries : list (string * Re.regex)) :
  NoDup (map fst entries) ->
  forall fields fields' : field_map,
    extract_loop text entries fields = Ok fields' ->
    forall name pattern,
      (name, pattern) ∈ entries ->
      (forall m g,
          Re.search search_flags pattern text = Some m -> Re.group m 1 = Ok g ->
          fields' !! name =
          Some (Some (if String.eqb name "Asset Type" then "Automobile"
                      else Str.strip g)))
      /\ (Re.search search_flags pattern text = None ->
          fields' !! name = fields !! name).
Proof.
  induction entries as [|e entries IH]; intros Hnd fields fields' H name pattern Hin.
  - by apply elem_of_nil in Hin.
  - cbn [map] in Hnd. apply NoDup_cons in Hnd as [Hfresh Hnd].
    apply extract_loop_cons in H as (f1 & H1 & H2).
    apply elem_of_cons in Hin as [<-|Hin].
    + cbn [fst] in Hfresh. rewrite (extract_loop_other _ _ _ _ _ H2 Hfresh).
      apply extract_entry_inv in H1 as [[Hs ->]|(m & g & Hs & Hg & ->)];
        cbn [fst snd] in *.
      * split; [|reflexivity]. intros m g Hm. congruence.
      * split; [|congruence]. intros m' g' Hm' Hg'.
        assert (m' = m) as -> by congruence. assert (g' = g) as -> by congruence.
        apply lookup_insert_eq.
    + assert (f1 !! name = fields !! name) as Hsame.
      { apply extract_entry_inv in H1 as [[_ ->]|(m & g & _ & _ & ->)]; [reflexivity|].
        apply lookup_insert_ne. intros Heq. apply Hfresh. rewrite Heq.
        by apply (entry_name_in _ pattern). }
      destruct (IH Hnd f1 fields' H2 name pattern Hin) as [Hfound Hnone].
      split; [exact Hfound|]. intros Hs. by rewrite (Hnone Hs).
Qed.

Lemma capturing_entries_NoDup : NoDup (map fst capturing_entries).
Proof.
  rewrite capturing_entries_names. repeat (apply NoDup_cons; split; [set_solver|]).
  apply NoDup_nil_2.
Qed.

(** The value of each of the eight fields of the table in the dictionary
    that [extract_fields] returns. *)
Lemma extract_fields_get (text : string) (fields : field_map)
    (name : string) (pattern : Re.regex) :
  extract_fields text = Ok fields -> (name, pattern) ∈ capturing_entries ->
  get fields name = captured pattern text.
Proof.
  intros H Hin. destruct (extract_fields_cases text) as (f1 & Hloop & Hcases).
  rewrite Hcases in H. destruct (title_matches text); [discriminate|].
  assert (name <> "Asset Type") as Hname.
  { apply entry_name_in in Hin. rewrite capturing_entries_names in Hin.
    intros ->. set_solver. }
  assert (get fields name = get f1 name) as ->.
  { destruct (title_in_upper text); injection H as <-; [|reflexivity].
    unfold get. by rewrite lookup_insert_ne. }
  destruct (extract_loop_get _ _ capturing_entries_NoDup _ _ Hloop _ _ Hin)
    as [Hfound Hnone].
  unfold captured. destruct (Re.search search_flags pattern text) as [m|] eqn:Hs.
  - assert (1 <= Re.group_count pattern) as Hn.
    { pose proof capturing_entries_groups as Hall.
      rewrite Forall_forall in Hall. apply (Hall _ Hin). }
    destruct (ReFacts.group_1_ok _ _ _ _ Hs Hn) as [g Hg]. rewrite Hg.
    unfold get. rewrite (Hfound m g eq_refl Hg).
    apply String.eqb_neq in Hname. by rewrite Hname.
  - rewrite <- (get_empty_fields name). unfold get. by rewrite (Hnone eq_refl).
Qed.

(** X12. The eight fields of the table are extracted independently: in the
    Field Map that the extractor returns, the value of each is the trimmed
    first group of the leftmost match of its own pattern, and absent
    without a match, whatever the other patterns find. *)
Theorem table_entries_are_independent (text : string) :
  ~ contains_ci TITLE text ->
  exists fields,
    extract_fields text = Ok fields
    /\ forall name pattern,
         (name, pattern) ∈ capturing_entries ->
         get fields name = captured pattern text.
Proof.
  intros Hno. destruct (returns_without_title text Hno) as [fields H].
  exists fields. split; [exact H|]. intros name pattern.
  apply (extract_fields_get text fields name pattern H).
Qed.

Lemma table_entries_are_independent_witness :
  exists fields,
    extract_fields notice_lines = Ok fields
    /\ forall name pattern,
         (name, pattern) ∈ capturing_entries ->
         get fields name = captured pattern notice_lines.
Proof.
  apply (table_entries_are_independent notice_lines).
  apply no_title_decide. vm_compute. reflexivity.
Defined.

(** ** The date and the time *)

(** Where the pattern of the time matches, the pattern of the date does. *)
Lemma time_needs_date (text : string) (e_date e_time : string * Re.regex) :
  FIELD_PATTERNS !! 2 = Some e_date -> FIELD_PATTERNS !! 3 = Some e_time ->
  is_Some (Re.search search_flags e_time.2 text) ->
  is_Some (Re.search search_flags e_date.2 text).
Proof.
  intros Hd Ht. vm_compute in Hd. vm_compute in Ht.
  injection Hd as <-. injection Ht as <-. cbn [snd].
  set (label := Re.lit "DATE OF LOSS AND TIME").
  set (blanks := Re.Atom (Re.OneOf [Re.Space]) Re.Star).
  set (date := Re.Atom (Re.OneOf [Re.Digit; Re.Chr "/"; Re.Chr "-"]%char) Re.Plus).
  intros Hs.
  change (is_Some (Re.search search_flags
            (label ++ [blanks] ++ [Re.GroupOpen; date; Re.GroupClose]) text)).
  change (is_Some (Re.search search_flags
            (label ++ [blanks] ++ [date] ++
             [blanks; Re.GroupOpen;
              Re.Atom (Re.OneOf [Re.Chr "A"; Re.Chr "P"; Re.Chr "M";
                                 Re.Range "0" "9"; Re.Chr ":"; Re.Chr " "]%char) Re.Plus;
              Re.GroupClose]) text)) in Hs.
  apply MatchFacts.search_matches in Hs as (pre & s & rest & -> & Hm).
  apply MatchFacts.search_matches. exists pre, s.
  apply MatchFacts.matches_app in Hm as (m1 & Hl & Hm).
  apply MatchFacts.matches_app in Hm as (m2 & Hb & Hm).
  apply MatchFacts.matches_app in Hm as (m3 & Hdate & _).
  exists m3. split; [reflexivity|].
  apply MatchFacts.matches_app. exists m1. split; [exact Hl|].
  apply MatchFacts.matches_app. exists m2. split; [exact Hb|].
  exact Hdate.
Qed.

(** X13. A Field Map that the extractor returns with a Time of Loss has a
    Date of Loss: the pattern of the time starts with the pattern of the
    date. *)
Theorem time_of_loss_comes_with_a_date (text : string) :
  ~ contains_ci TITLE text ->
  exists fields,
    extract_fields text = Ok fields
    /\ (is_Some (get fields "Time of Loss") -> is_Some (get fields "Date of Loss"))
    /\ ("Date of Loss" ∈ find_missing_fields fields ->
        "Time of Loss" ∈ find_missing_fields fields).
Proof.
  intros Hno. destruct (returns_without_title text Hno) as [fields H].
  exists fields. split; [exact H|].
  assert (is_Some (get fields "Time of Loss") -> is_Some (get fields "Date of Loss"))
    as Himp.
  { destruct (FIELD_PATTERNS !! 2) as [e_date|] eqn:Hd; [|vm_compute in Hd; discriminate].
    destruct (FIELD_PATTERNS !! 3) as [e_time|] eqn:Ht; [|vm_compute in Ht; discriminate].
    pose proof (time_needs_date text e_date e_time Hd Ht) as Hneed.
    assert (e_date ∈ capturing_entries /\ e_time ∈ capturing_entries) as [Hind Hint].
    { split; eapply list_elem_of_lookup_2, lookup_take_Some; split; eauto; lia. }
    assert (e_date.1 = "Date of Loss" /\ e_time.1 = "Time of Loss") as [Hnd Hnt].
    { vm_compute in Hd. vm_compute in Ht. injection Hd as <-. injection Ht as <-.
      split; reflexivity. }
    destruct e_date as [nd pd], e_time as [nt pt]. cbn [fst snd] in *. subst nd nt.
    rewrite (extract_fields_get _ _ _ _ H Hind), (extract_fields_get _ _ _ _ H Hint).
    unfold captured. intros Htime.
    destruct (Re.search search_flags pt text) as [mt|]; [|by destruct Htime].
    destruct Hneed as [md Hmd]; [eauto|]. rewrite Hmd.
    assert (1 <= Re.group_count pd) as Hn.
    { pose proof capturing_entries_groups as Hall.
      rewrite Forall_forall in Hall. apply (Hall _ Hind). }
    destruct (ReFacts.group_1_ok _ _ _ _ Hmd Hn) as [g ->]. eauto. }
  split; [exact Himp|].
  unfold find_missing_fields. rewrite find_missing_fields_filter, !list_elem_of_filter.
  intros [Habs _]. split; [|unfold MANDATORY_FIELDS; set_solver].
  destruct (get fields "Time of Loss") as [t|] eqn:Htime; [|by left].
  destruct Himp as [d Hd]; [eauto|]. rewrite Hd in Habs.
  destruct Habs as [Ha|Ha]; [discriminate|]. injection Ha as ->.
  destruct (ClassFacts.stored_date_of_loss _ _ _ H Hd) as (g & Hg & Hne & Hall).
  apply (ClassFacts.forallb_impl _ (fun c => negb (Char.is_space c))) in Hall;
    [|intros c Hc; by rewrite (ClassFacts.date_char_not_space c Hc)].
  rewrite (ClassFacts.strip_no_space g Hall) in Hg. by destruct Hne.
Qed.

Lemma time_of_loss_comes_with_a_date_witness :
  exists fields,
    extract_fields notice_lines = Ok fields
    /\ (is_Some (get fields "Time of Loss") -> is_Some (get fields "Date of Loss"))
    /\ ("Date of Loss" ∈ find_missing_fields fields ->
        "Time of Loss" ∈ find_missing_fields fields).
Proof.
  apply (time_of_loss_comes_with_a_date notice_lines).
  apply no_title_decide. vm_compute. reflexivity.
Defined.

(** ** The text of a PDF *)

Module PagesFacts.

(** A word without the separator starts at the same places with and
    without what follows the separator. *)
Lemma startswith_sep (c : ascii) (w : string) :
  Str.forallb (fun x => negb (Ascii.eqb x c)) w = true ->
  forall a b, Str.startswith w (a +:+ String c b) = Str.startswith w a.
Proof.
  induction w as [|x w IH]; intros Hw a b; [by destruct a|].
  simpl in Hw. apply andb_true_iff in Hw as [Hx Hw]. apply negb_true_iff in Hx.
  destruct a as [|y a]; simpl.
  - by rewrite Hx.
  - by rewrite (IH Hw).
Qed.

Lemma contains_sep (c : ascii) (w a b : string) :
  Str.forallb (fun x => negb (Ascii.eqb x c)) w = true ->
  Str.contains w (a +:+ String c b) = Str.contains w a || Str.contains w b.
Proof.
  intros Hw. induction a as [|y a IH].
  - pose proof (startswith_sep c w Hw EmptyString b) as H0.
    simpl in H0 |- *. by rewrite H0, orb_false_r.
  - pose proof (startswith_sep c w Hw (String y a) b) as H1.
    simpl in H1 |- *. by rewrite H1, IH, orb_assoc.
Qed.

(** A non-empty word without the separator occurs in the joined text when
    it occurs in one of the parts. *)
Lemma contains_join (c : ascii) (w : string) (parts : list string) :
  w <> EmptyString ->
  Str.forallb (fun x => negb (Ascii.eqb x c)) w = true ->
  Str.contains w (Str.join (String c EmptyString) parts)
  = existsb (Str.contains w) parts.
Proof.
  intros Hne Hw. induction parts as [|x parts IH].
  - destruct w; [done|reflexivity].
  - destruct parts as [|y parts].
    + simpl. by rewrite orb_false_r.
    + change (Str.join (String c EmptyString) (x :: y :: parts))
        with (x +:+ String c (Str.join (String c EmptyString) (y :: parts))).
      rewrite (contains_sep c w _ _ Hw), IH. reflexivity.
Qed.

Lemma lower_join (parts : list string) :
  Str.lower (Str.join nl parts) = Str.join nl (Str.lower <$> parts).
Proof.
  induction parts as [|x parts IH]; [reflexivity|].
  destruct parts as [|y parts]; [reflexivity|].
  change (Str.join nl (x :: y :: parts)) with (x +:+ nl +:+ Str.join nl (y :: parts)).
  unfold Str.lower in *. rewrite !StrFacts.map_app, IH. reflexivity.
Qed.

(** The title phrase in a text, decided on the small letters. *)
Lemma title_lower (text : string) :
  contains_ci TITLE text <-> Str.contains (Str.lower TITLE) (Str.lower text) = true.
Proof.
  rewrite (contains_lower (Str.lower TITLE) text eq_refl).
  split; intros (pre & mid & post & -> & Hm); exists pre, mid, post;
    (split; [reflexivity|]); rewrite Hm; reflexivity.
Qed.

(** The title phrase is in the text of the pages when it is on a page. *)
Lemma title_on_a_page (pages : list (option string)) :
  contains_ci TITLE (extract_text_from_pdf pages)
  <-> exists page, Some page ∈ pages /\ contains_ci TITLE page.
Proof.
  rewrite title_lower. unfold extract_text_from_pdf.
  change (String Char.newline EmptyString) with nl.
  rewrite lower_join, (contains_join Char.newline) by (vm_compute; done).
  rewrite existsb_exists. split.
  - intros (part & Hin & Hc). apply list_elem_of_In in Hin.
    apply list_elem_of_fmap in Hin as (raw & -> & Hin).
    apply list_elem_of_fmap in Hin as (page & -> & Hin).
    apply title_lower in Hc. destruct page as [[|c s]|].
    + exists EmptyString. auto.
    + exists (String c s). auto.
    + apply title_lower in Hc. vm_compute in Hc. discriminate.
  - intros (page & Hin & Hc). exists (Str.lower (or_empty (Some page))). split.
    + apply list_elem_of_In, list_elem_of_fmap. eexists. split; [reflexivity|].
      apply list_elem_of_fmap. eauto.
    + apply title_lower. by destruct page.
Qed.

End PagesFacts.

(** X14. [process_pdf] raises IndexError exactly for the files with a page
    whose text has the title phrase, in any case of its letters: the pages
    are joined by line breaks, so the phrase cannot span two pages, and a
    page without text counts as empty. *)
Theorem pdf_with_a_title_page_raises (pages : string -> list (option string))
    (pdf_path : string) :
  process_pdf (fun path => extract_text_from_pdf (pages path)) pdf_path
  = Raise IndexError
  <-> exists page, Some page ∈ pages pdf_path /\ contains_ci TITLE page.
Proof.
  unfold process_pdf. rewrite <- PagesFacts.title_on_a_page, <- title_matches_spec.
  pose proof (process_text_cases (extract_text_from_pdf (pages pdf_path))) as Hc.
  destruct (title_matches (extract_text_from_pdf (pages pdf_path))).
  - split; [reflexivity|]. intros _. exact Hc.
  - destruct Hc as [out ->]. split; discriminate.
Qed.

(** ** Texts without anything to read *)

Module BlankFacts.

Lemma space_case (x : ascii) :
  Char.is_space x = true ->
  Char.lower x = x /\ Char.upper x = x /\ Ascii.eqb x Char.sharp_s = false.
Proof. destruct x as [[] [] [] [] [] [] [] []]; vm_compute; intros; done. Qed.

(** A blank text has no word that starts with a visible character. *)
Lemma blank_has_no_word (c : ascii) (w text : string) :
  Char.is_space (Char.lower c) = false ->
  Str.forallb Char.is_space text = true ->
  ~ contains_ci (String c w) text.
Proof.
  intros Hc Hs (pre & mid & post & -> & Hm).
  rewrite !MatchFacts.forallb_append in Hs.
  apply andb_true_iff in Hs as [_ Hs]. apply andb_true_iff in Hs as [Hs _].
  destruct mid as [|x mid]; [discriminate|]. simpl in Hm, Hs.
  apply andb_true_iff in Hs as [Hx _]. injection Hm as Hm _.
  destruct (space_case x Hx) as [Hl _]. congruence.
Qed.

Lemma upper_blank (text : string) :
  Str.forallb Char.is_space text = true -> Str.upper text = text.
Proof.
  induction text as [|x text IH]; [reflexivity|]. simpl.
  intros [Hx Hs]%andb_true_iff. destruct (space_case x Hx) as (_ & Hu & ->).
  by rewrite Hu, (IH Hs).
Qed.

Lemma join_blank (parts : list string) :
  Forall (fun part => Str.forallb Char.is_space part = true) parts ->
  Str.forallb Char.is_space (Str.join nl parts) = true.
Proof.
  induction 1 as [|x parts Hx Hparts IH]; [reflexivity|].
  destruct parts as [|y parts]; [exact Hx|].
  change (Str.join nl (x :: y :: parts)) with (x +:+ nl +:+ Str.join nl (y :: parts)).
  rewrite !MatchFacts.forallb_append, Hx, IH. reflexivity.
Qed.

(** Every label starts with a letter. *)
Lemma label_start (name label : string) :
  (name, label) ∈ LABELS ->
  exists c w, label = String c w /\ Char.is_space (Char.lower c) = false.
Proof.
  intros Hl. unfold LABELS in Hl.
  repeat (apply elem_of_cons in Hl as [[= -> ->]|Hl]); [..|by apply elem_of_nil in Hl];
    eexists _, _; (split; [reflexivity|vm_compute; reflexivity]).
Qed.

Lemma entry_has_label (e : string * Re.regex) :
  e ∈ capturing_entries ->
  exists label tail, (e.1, label) ∈ LABELS /\ e.2 = Re.lit label ++ tail.
Proof.
  intros Hin. apply capturing_entries_cases in Hin as (i & Hlt & Hi).
  destruct i as [|[|[|[|[|[|[|[|i]]]]]]]]; [..|lia];
    vm_compute in Hi; injection Hi as <-; cbn [fst snd].
  - exists "POLICY NUMBER". eexists. split; [set_solver|reflexivity].
  - exists "NAME OF INSURED". eexists. split; [set_solver|reflexivity].
  - exists "DATE OF LOSS AND TIME". eexists. split; [set_solver|reflexivity].
  - exists "DATE OF LOSS AND TIME". eexists. split; [set_solver|reflexivity].
  - exists "LOCATION OF LOSS". eexists. split; [set_solver|reflexivity].
  - exists "DESCRIPTION OF ACCIDENT". eexists. split; [set_solver|reflexivity].
  - exists "LINE OF BUSINESS". eexists. split; [set_solver|reflexivity].
  - exists "ESTIMATE AMOUNT". eexists. split; [set_solver|reflexivity].
Qed.

(** A loop none of whose patterns matches leaves the dictionary as it is. *)
Lemma extract_loop_nomatch (text : string) (entries : list (string * Re.regex))
    (fields : field_map) :
  Forall (fun e => Re.search search_flags e.2 text = None) entries ->
  extract_loop text entries fields = Ok fields.
Proof.
  induction 1 as [|[name pattern] entries He _ IH]; [reflexivity|].
  cbn [extract_loop]. unfold extract_entry. cbn [snd] in He. rewrite He.
  exact IH.
Qed.

Lemma extract_fields_blank (text : string) :
  Str.forallb Char.is_space text = true -> extract_fields text = Ok empty_fields.
Proof.
  intros Hs. destruct (extract_fields_cases text) as (f1 & Hloop & ->).
  assert (~ contains_ci TITLE text) as Hno by (by apply blank_has_no_word).
  destruct (title_matches text) eqn:Ht; [by apply title_matches_spec in Ht|].
  assert (title_in_upper text = false) as ->.
  { unfold title_in_upper. rewrite (upper_blank text Hs).
    destruct (Str.contains TITLE text) eqn:E; [|reflexivity].
    apply StrFacts.contains_spec in E as (pre & post & ->).
    destruct Hno. exists pre, TITLE, post. split; reflexivity. }
  rewrite extract_loop_nomatch in Hloop; [congruence|].
  apply Forall_forall. intros e Hin.
  destruct (entry_has_label e Hin) as (label & tail & Hl & ->).
  destruct (Re.search search_flags (Re.lit label ++ tail) text) as [m|] eqn:E;
    [|reflexivity].
  destruct (label_start _ _ Hl) as (c & w & -> & Hc).
  destruct (blank_has_no_word c w text Hc Hs).
  apply (label_needed _ tail). rewrite E. eauto.
Qed.

End BlankFacts.

(** X15. A file whose pages have no text but white space, such as a scan
    without a text layer or a file without pages, is processed without an
    error: no field is found, all eleven are reported missing in their
    order, and the route is Manual review. *)
Theorem pdf_without_text_has_every_field_missing
    (pages : string -> list (option string)) (pdf_path : string) :
  Forall (fun page => Str.forallb Char.is_space (or_empty page) = true)
         (pages pdf_path) ->
  exists out,
    process_pdf (fun path => extract_text_from_pdf (pages path)) pdf_path = Ok out
    /\ extractedFields out = empty_fields
    /\ missingFields out = MANDATORY_FIELDS
    /\ recommendedRoute out = "Manual review"
    /\ reasoning out =
       "One or more mandatory fields are missing: Policy Number, Policyholder Name, Date of Loss, Time of Loss, Location, Description, Claim Type, Estimated Damage, Asset Type, Initial Estimate, Attachments".
Proof.
  intros Hpages. unfold process_pdf.
  set (text := extract_text_from_pdf (pages pdf_path)).
  assert (Str.forallb Char.is_space text = true) as Hs.
  { apply BlankFacts.join_blank. by apply Forall_fmap. }
  pose proof (BlankFacts.extract_fields_blank text Hs) as He.
  pose proof (process_text_cases text) as Hc.
  destruct (title_matches text) eqn:Ht.
  { apply title_matches_spec in Ht.
    destruct (BlankFacts.blank_has_no_word "A" "UTOMOBILE LOSS NOTICE" text eq_refl Hs).
    exact Ht. }
  destruct Hc as [out Hout]. exists out. split; [exact Hout|].
  destruct (process_text_returned text out Hout) as (Hf & Hm & _ & _ & Hr & Hreason).
  assert (extractedFields out = empty_fields) as Hfields by congruence.
  rewrite Hfields in Hm.
  split; [exact Hfields|]. split; [rewrite Hm; vm_compute; reflexivity|].
  split; [exact Hr|]. rewrite Hreason, Hm. vm_compute. reflexivity.
Qed.

Lemma pdf_without_text_has_every_field_missing_witness :
  exists out,
    process_pdf (fun path => extract_text_from_pdf ((fun _ => [None; Some " "]) path))
                "scan.pdf" = Ok out
    /\ extractedFields out = empty_fields
    /\ missingFields out = MANDATORY_FIELDS
    /\ recommendedRoute out = "Manual review"
    /\ reasoning out =
       "One or more mandatory fields are missing: Policy Number, Policyholder Name, Date of Loss, Time of Loss, Location, Description, Claim Type, Estimated Damage, Asset Type, Initial Estimate, Attachments".
Proof.
  apply (pdf_without_text_has_every_field_missing (fun _ => [None; Some " "]) "scan.pdf").
  repeat constructor.
Defined.

(** ** Whole numbers as floats *)

Module WholeFacts.

Local Open Scope Z_scope.

Lemma digits2_size (p : positive) : digits2_pos p = Pos.size p.
Proof. induction p as [p IH|p IH|]; simpl; congruence. Qed.

(** A positive number of [d] binary digits lies between 2^(d-1) and 2^d. *)
Lemma digits_bounds (p : positive) :
  2 ^ (Z.pos (digits2_pos p) - 1) <= Z.pos p < 2 ^ Z.pos (digits2_pos p).
Proof.
  rewrite digits2_size. pose proof (Pos.size_gt p) as Hgt.
  pose proof (Pos.size_le p) as Hle.
  apply Pos2Z.pos_lt_pos in Hgt. apply Pos2Z.pos_le_pos in Hle.
  rewrite Pos2Z.inj_pow in Hgt, Hle.
  assert (2 ^ Z.pos (Pos.size p) = 2 * 2 ^ (Z.pos (Pos.size p) - 1)) as Hp.
  { rewrite <- Z.pow_succ_r by lia. f_equal. lia. }
  lia.
Qed.

Lemma digits_unique (q : positive) (g : Z) :
  2 ^ (g - 1) <= Z.pos q < 2 ^ g -> Z.pos (digits2_pos q) = g.
Proof.
  intros [Hlo Hhi]. pose proof (digits_bounds q) as [Hlo' Hhi'].
  destruct (Z.lt_trichotomy (Z.pos (digits2_pos q)) g) as [Hlt|[Heq|Hgt]]; [|exact Heq|].
  - assert (2 ^ Z.pos (digits2_pos q) <= 2 ^ (g - 1)) by (apply Z.pow_le_mono_r; lia).
    lia.
  - assert (2 ^ g <= 2 ^ (Z.pos (digits2_pos q) - 1)) by (apply Z.pow_le_mono_r; lia).
    lia.
Qed.

Lemma shr_1_m (mrs : shr_record) :
  0 <= shr_m mrs -> shr_m (shr_1 mrs) = shr_m mrs / 2.
Proof.
  destruct mrs as [m r s]. destruct m as [|[q|q|]|q]; simpl; intros H;
    try reflexivity; try lia.
  - apply (Z.div_unique _ _ _ 1); lia.
  - apply (Z.div_unique _ _ _ 0); lia.
Qed.

Lemma iter_pos_nat {A : Type} (f : A -> A) (n : positive) :
  forall x, SpecFloat.iter_pos f n x = Nat.iter (Pos.to_nat n) f x.
Proof.
  induction n as [n IH|n IH|]; intros x; simpl SpecFloat.iter_pos.
  - rewrite !IH, Pos2Nat.inj_xI, <- Nat.iter_add.
    replace (2 * Pos.to_nat n)%nat with (Pos.to_nat n + Pos.to_nat n)%nat by lia.
    symmetry. apply Nat.iter_succ_r.
  - rewrite !IH, Pos2Nat.inj_xO, <- Nat.iter_add.
    replace (2 * Pos.to_nat n)%nat with (Pos.to_nat n + Pos.to_nat n)%nat by lia.
    reflexivity.
  - reflexivity.
Qed.

Lemma iter_shr_m (k : nat) (mrs : shr_record) :
  0 <= shr_m mrs -> shr_m (Nat.iter k shr_1 mrs) = shr_m mrs / 2 ^ Z.of_nat k.
Proof.
  intros H. induction k as [|k IH].
  - simpl. by rewrite Z.div_1_r.
  - simpl Nat.iter. rewrite shr_1_m, IH.
    + rewrite Z.div_div by lia. rewrite Nat2Z.inj_succ, Z.pow_succ_r by lia.
      f_equal. lia.
    + rewrite IH. apply Z.div_pos; lia.
Qed.

(** A shift to the right divides the mantissa and raises the exponent. *)
Lemma shr_spec (mrs : shr_record) (e n : Z) :
  0 <= shr_m mrs ->
  shr_m (fst (shr mrs e n)) = shr_m mrs / 2 ^ Z.max n 0
  /\ snd (shr mrs e n) = e + Z.max n 0.
Proof.
  intros H. destruct n as [|k|k]; simpl fst; simpl snd.
  - rewrite Z.div_1_r. lia.
  - rewrite iter_pos_nat, iter_shr_m, positive_nat_Z by exact H.
    replace (Z.max (Z.pos k) 0) with (Z.pos k) by lia. auto.
  - replace (Z.max (Z.neg k) 0) with 0 by lia. rewrite Z.div_1_r. lia.
Qed.

(** A mantissa of 54 binary digits whose last digit is 0 is rounded to the
    53 other digits, without error. *)
Lemma round_exact (q : positive) (e : Z) :
  Z.pos (digits2_pos q) = 53 -> -1074 <= e <= 971 ->
  binary_round_aux Float.prec Float.emax false (Z.pos q~0) (e - 1) loc_Exact
  = S754_finite false q e.
Proof.
  intros Hd He. unfold binary_round_aux, shr_fexp.
  assert (fexp Float.prec Float.emax (Zdigits2 (Z.pos q~0) + (e - 1)) - (e - 1) = 1)
    as ->.
  { unfold fexp, emin, Float.prec, Float.emax. simpl Zdigits2.
    rewrite Pos2Z.inj_succ. lia. }
  simpl shr. cbn [round_nearest_even shr_m loc_of_shr_record orb shr_r shr_s].
  assert (fexp Float.prec Float.emax (Zdigits2 (Z.pos q) + (e - 1 + 1)) - (e - 1 + 1) = 0)
    as ->.
  { unfold fexp, emin, Float.prec, Float.emax. simpl Zdigits2. lia. }
  simpl. replace (e - 1 + 1) with e by lia.
  destruct (Z.leb_spec e (Float.emax - Float.prec)) as [_|Hgt]; [reflexivity|].
  unfold Float.emax, Float.prec in Hgt. lia.
Qed.

Lemma div_eucl_1 (a : Z) : Z.div_eucl a 1 = (a, 0).
Proof.
  destruct (Z.div_eucl a 1) as [q r] eqn:E.
  assert (q = a / 1) as -> by (unfold Z.div; by rewrite E).
  assert (r = a mod 1) as -> by (unfold Z.modulo; by rewrite E).
  by rewrite Z.div_1_r, Z.mod_1_r.
Qed.

(** The float of a whole number of at most 53 binary digits is the number
    itself, with a mantissa of 53 digits. *)
Lemma of_decimal_exact (p : positive) :
  Z.pos (digits2_pos p) <= 53 ->
  exists q,
    Float.of_decimal (Z.pos p) 0 = S754_finite false q (Z.pos (digits2_pos p) - 53)
    /\ Z.pos q = Z.pos p * 2 ^ (53 - Z.pos (digits2_pos p)).
Proof.
  intros Hd. pose proof (digits_bounds p) as [Hlo Hhi].
  set (d := Z.pos (digits2_pos p)) in *.
  assert (0 < Z.pos p * 2 ^ (53 - d)) as Hpos by (apply Z.mul_pos_pos; lia).
  destruct (Z.pos p * 2 ^ (53 - d)) as [|q|q] eqn:Hq; [lia| |lia].
  exists q. split; [|reflexivity].
  unfold Float.of_decimal, SFdiv, SFdiv_core_binary.
  change (Z.to_pos (10 ^ 0)) with 1%positive.
  change (Zdigits2 (Z.pos p)) with d. change (Zdigits2 1) with 1.
  cbv zeta.
  assert (Z.min (fexp Float.prec Float.emax (d + 0 - (1 + 0))) (0 - 0) = d - 54) as ->.
  { unfold fexp, emin, Float.prec, Float.emax. lia. }
  destruct (0 - 0 - (d - 54)) as [|k|k] eqn:Hs; [lia| |lia].
  rewrite div_eucl_1. cbn [xorb].
  change (new_location 1 0) with loc_Exact.
  assert (Z.shiftl (Z.pos p) (Z.pos k) = Z.pos q~0) as ->.
  { rewrite Z.shiftl_mul_pow2 by lia. change (Z.pos q~0) with (2 * Z.pos q).
    rewrite <- Hq.
    replace (Z.pos k) with (Z.succ (53 - d)) by lia.
    rewrite Z.pow_succ_r by lia. lia. }
  replace (d - 54) with (d - 53 - 1) by lia.
  apply round_exact; [|lia].
  apply digits_unique. rewrite <- Hq. change (53 - 1) with 52.
  assert (2 ^ 52 = 2 ^ (d - 1) * 2 ^ (53 - d)) as ->.
  { rewrite <- Z.pow_add_r by lia. f_equal. lia. }
  assert (2 ^ 53 = 2 ^ d * 2 ^ (53 - d)) as ->.
  { rewrite <- Z.pow_add_r by lia. f_equal. lia. }
  assert (0 < 2 ^ (53 - d)) by (apply Z.pow_pos_nonneg; lia).
  split; [apply Z.mul_le_mono_nonneg_r; lia|apply Z.mul_lt_mono_pos_r; lia].
Qed.

Lemma threshold_float :
  Float.of_Z 25000 = S754_finite false (25000 * 2 ^ 38) (-38).
Proof. vm_compute. reflexivity. Qed.

(** Up to 53 binary digits: the float of the number is below the float of
    25000 when the number is below 25000. *)
Lemma ltb_threshold_exact (p : positive) :
  Z.pos (digits2_pos p) <= 53 ->
  Float.ltb (Float.of_decimal (Z.pos p) 0) (Float.of_Z 25000) = (Z.pos p <? 25000).
Proof.
  intros Hd. destruct (of_decimal_exact p Hd) as (q & -> & Hq).
  pose proof (digits_bounds p) as [Hlo Hhi].
  set (d := Z.pos (digits2_pos p)) in *.
  rewrite threshold_float. unfold Float.ltb, SFltb, SFcompare.
  destruct (Z.compare_spec (d - 53) (-38)) as [He|He|He].
  - replace (53 - d) with 38 in Hq by lia.
    change (Pos.compare_cont Eq q (25000 * 2 ^ 38)) with (Z.pos q ?= 25000 * 2 ^ 38).
    rewrite Hq. change (2 ^ 38) with 274877906944.
    destruct (Z.compare_spec (Z.pos p * 274877906944) (25000 * 274877906944));
      destruct (Z.ltb_spec (Z.pos p) 25000); (reflexivity || lia).
  - assert (2 ^ d <= 2 ^ 14) as Hle by (apply Z.pow_le_mono_r; lia).
    change (2 ^ 14) with 16384 in Hle.
    destruct (Z.ltb_spec (Z.pos p) 25000); [reflexivity|lia].
  - assert (2 ^ 15 <= 2 ^ (d - 1)) as Hle by (apply Z.pow_le_mono_r; lia).
    change (2 ^ 15) with 32768 in Hle.
    destruct (Z.ltb_spec (Z.pos p) 25000); [lia|reflexivity].
Qed.

Lemma round_nearest_even_ge (m : Z) (l : location) : m <= round_nearest_even m l.
Proof. destruct l as [|[]]; simpl; try lia. destruct (Z.even m); lia. Qed.

(** From 54 binary digits on: the float of the number is finite with a
    positive exponent, or infinite. *)
Lemma of_decimal_big (p : positive) :
  54 <= Z.pos (digits2_pos p) ->
  (exists m e, Float.of_decimal (Z.pos p) 0 = S754_finite false m e /\ 1 <= e)
  \/ Float.of_decimal (Z.pos p) 0 = S754_infinity false.
Proof.
  intros Hd. pose proof (digits_bounds p) as [Hlo Hhi].
  set (d := Z.pos (digits2_pos p)) in *.
  unfold Float.of_decimal, SFdiv, SFdiv_core_binary.
  change (Z.to_pos (10 ^ 0)) with 1%positive.
  change (Zdigits2 (Z.pos p)) with d. change (Zdigits2 1) with 1.
  cbv zeta.
  assert (Z.min (fexp Float.prec Float.emax (d + 0 - (1 + 0))) (0 - 0) = 0) as ->.
  { unfold fexp, emin, Float.prec, Float.emax. lia. }
  change (0 - 0 - 0) with 0. cbv iota.
  rewrite div_eucl_1. cbn [xorb]. change (new_location 1 0) with loc_Exact.
  unfold binary_round_aux, shr_fexp.
  change (Zdigits2 (Z.pos p)) with d.
  assert (fexp Float.prec Float.emax (d + 0) - 0 = d - 53) as ->.
  { unfold fexp, emin, Float.prec, Float.emax. lia. }
  pose proof (shr_spec (shr_record_of_loc (Z.pos p) loc_Exact) 0 (d - 53)) as Hs1.
  destruct (shr (shr_record_of_loc (Z.pos p) loc_Exact) 0 (d - 53)) as [mrs1 e1].
  destruct Hs1 as [Hm1 He1]; [simpl; lia|]. cbn [fst snd] in Hm1, He1.
  change (shr_m (shr_record_of_loc (Z.pos p) loc_Exact)) with (Z.pos p) in Hm1.
  replace (Z.max (d - 53) 0) with (d - 53) in Hm1, He1 by lia.
  assert (1 <= shr_m mrs1) as Hpos1.
  { rewrite Hm1. apply Z.div_le_lower_bound; [apply Z.pow_pos_nonneg; lia|].
    assert (2 ^ (d - 53) <= 2 ^ (d - 1)) by (apply Z.pow_le_mono_r; lia). lia. }
  pose proof (round_nearest_even_ge (shr_m mrs1) (loc_of_shr_record mrs1)) as Hge.
  destruct (round_nearest_even (shr_m mrs1) (loc_of_shr_record mrs1))
    as [|m2|m2] eqn:Hm2; [lia| |lia].
  pose proof (digits_bounds m2) as [Hlo2 Hhi2].
  change (Zdigits2 (Z.pos m2)) with (Z.pos (digits2_pos m2)).
  set (g := Z.pos (digits2_pos m2)) in *.
  set (n2 := fexp Float.prec Float.emax (g + e1) - e1).
  pose proof (shr_spec (shr_record_of_loc (Z.pos m2) loc_Exact) e1 n2) as Hs2.
  destruct (shr (shr_record_of_loc (Z.pos m2) loc_Exact) e1 n2) as [mrs2 e2].
  destruct Hs2 as [Hm3 He2]; [simpl; lia|]. cbn [fst snd] in Hm3, He2.
  change (shr_m (shr_record_of_loc (Z.pos m2) loc_Exact)) with (Z.pos m2) in Hm3.
  assert (1 <= shr_m mrs2) as Hpos2.
  { rewrite Hm3. apply Z.div_le_lower_bound; [apply Z.pow_pos_nonneg; lia|].
    assert (Z.max n2 0 <= g - 1) as Hn2.
    { subst n2. unfold fexp, emin, Float.prec, Float.emax. lia. }
    assert (2 ^ Z.max n2 0 <= 2 ^ (g - 1)) by (apply Z.pow_le_mono_r; lia). lia. }
  destruct (shr_m mrs2) as [|m3|m3]; [lia| |lia].
  destruct (e2 <=? Float.emax - Float.prec); [|by right].
  left. exists m3, e2. split; [reflexivity|lia].
Qed.

(** The comparison of rule 4 on a whole number. *)
Lemma ltb_threshold (n : Z) :
  0 <= n ->
  Float.ltb (Float.of_decimal n 0) (Float.of_Z 25000) = (n <? 25000).
Proof.
  intros Hn. destruct n as [|p|p]; [reflexivity| |lia].
  destruct (Z.le_gt_cases (Z.pos (digits2_pos p)) 53) as [Hd|Hd].
  - by apply ltb_threshold_exact.
  - pose proof (digits_bounds p) as [Hlo _].
    assert (2 ^ 53 <= 2 ^ (Z.pos (digits2_pos p) - 1)) as Hle
      by (apply Z.pow_le_mono_r; lia).
    change (2 ^ 53) with 9007199254740992 in Hle.
    assert ((Z.pos p <? 25000) = false) as -> by (apply Z.ltb_ge; lia).
    rewrite threshold_float.
    destruct (of_decimal_big p) as [(m & e & -> & He)| ->]; [lia| |reflexivity].
    unfold Float.ltb, SFltb, SFcompare.
    destruct (Z.compare_spec e (-38)); (reflexivity || lia).
Qed.

End WholeFacts.

(** ** The threshold of rule 4 *)

Lemma digits_value_nonneg (s : string) :
  forall acc, digits s -> (0 <= acc)%Z -> (0 <= Float.digits_value acc s)%Z.
Proof.
  unfold digits. induction s as [|c s IH]; intros acc Hs Hacc; [exact Hacc|].
  simpl in Hs. apply andb_true_iff in Hs as [Hc Hs]. simpl. apply (IH _ Hs).
  unfold Char.is_digit, Char.between in Hc. apply andb_true_iff in Hc as [Hlo _].
  apply N.leb_le in Hlo. change (Char.code "0") with 48%N in Hlo.
  unfold Float.digit_value. lia.
Qed.

(** X16. With nothing missing, no suspicious word and no injury, an
    Estimated Damage whose digits write a whole number is fast-tracked
    exactly when the number is below 25000, however long it is; 25000
    itself goes to the Standard Queue.  The comparison is made on floats:
    an amount less than 25000 whose nearest float is 25000.0 is not
    fast-tracked. *)
Theorem whole_estimate_is_fast_tracked_below_25000 (fields : field_map) (s : string) :
  unsuspicious fields -> no_injury fields ->
  get fields "Estimated Damage" = Some s ->
  digits (Str.filter kept s) -> Str.filter kept s <> EmptyString ->
  apply_routing_rules fields [] =
    Ok (if (whole_number s <? 25000)%Z
        then ("Fast-track",
              "Estimated damage ("
              +:+ Float.repr (Float.of_decimal (whole_number s) 0)
              +:+ ") is less than 25,000.")
        else ("Standard Queue",
              "All mandatory fields present, no special conditions matched."))
  /\ apply_routing_rules (fields_with_estimate "$24,999.9999999999999") [] =
       Ok ("Standard Queue",
           "All mandatory fields present, no special conditions matched.").
Proof.
  intros Hu Hn He Hd Hne. split; [|vm_compute; reflexivity].
  rewrite (routing_by_estimate _ Hu Hn), He, FloatFacts.parse_amount_some.
  assert (Float.of_string (Str.filter kept s) = Ok (Float.of_decimal (whole_number s) 0))
    as ->.
  { apply FloatFacts.of_string_ok. exists (Str.filter kept s), EmptyString.
    split.
    - split; [exact Hd|]. split; [reflexivity|]. split; [|by right].
      by rewrite StrFacts.append_empty_r.
    - unfold decimal_float, whole_number. by rewrite StrFacts.append_empty_r. }
  change (Ok (Some ?v) ≫= ?k) with (k (Some v)). cbv beta iota.
  pose proof (digits_value_nonneg _ 0 Hd (Z.le_refl 0)) as Hpos.
  fold (whole_number s) in Hpos.
  rewrite (WholeFacts.ltb_threshold _ Hpos).
  destruct (Z.ltb_spec (whole_number s) 25000) as [Hlt|Hge]; reflexivity.
Qed.

Lemma whole_estimate_is_fast_tracked_below_25000_witness :
  apply_routing_rules (fields_with_estimate "$10,000") [] =
    Ok (if (whole_number "$10,000" <? 25000)%Z
        then ("Fast-track",
              "Estimated damage ("
              +:+ Float.repr (Float.of_decimal (whole_number "$10,000") 0)
              +:+ ") is less than 25,000.")
        else ("Standard Queue",
              "All mandatory fields present, no special conditions matched."))
  /\ apply_routing_rules (fields_with_estimate "$24,999.9999999999999") [] =
       Ok ("Standard Queue",
           "All mandatory fields present, no special conditions matched.").
Proof.
  apply (whole_estimate_is_fast_tracked_below_25000
           (fields_with_estimate "$10,000") "$10,000").
  - apply unsuspicious_decide. vm_compute. reflexivity.
  - apply no_injury_decide. vm_compute. reflexivity.
  - vm_compute. reflexivity.
  - unfold digits. vm_compute. reflexivity.
  - vm_compute. discriminate.
Defined.

(** ** What the routing engine reads *)

(** X17. The routing engine reads the Description, the Claim Type and the
    Estimated Damage of the Field Map, and its Missing List argument,
    nothing else: two Field Maps that agree on the three fields get the
    same decision and the same justification. *)
Theorem routing_reads_three_fields (f g : field_map) (missing : list string) :
  (forall name, name ∈ ROUTING_FIELDS -> get f name = get g name) ->
  apply_routing_rules f missing = apply_routing_rules g missing.
Proof.
  intros H. unfold apply_routing_rules.
  rewrite (H "Description"), (H "Claim Type"), (H "Estimated Damage");
    [reflexivity|unfold ROUTING_FIELDS; set_solver..].
Qed.

Lemma routing_reads_three_fields_witness :
  apply_routing_rules injury_fields [] =
  apply_routing_rules (<["Location" := Some " "]> (delete "Attachments" injury_fields)) [].
Proof.
  apply (routing_reads_three_fields injury_fields
           (<["Location" := Some " "]> (delete "Attachments" injury_fields)) []).
  intros name Hin. unfold ROUTING_FIELDS in Hin.
  repeat (apply elem_of_cons in Hin as [->|Hin]); [..|by apply elem_of_nil in Hin];
    vm_compute; reflexivity.
Defined.
